(** * MimicMotion wrapper nodes ([nodes.py]): a shallow embedding

    The file embeds the node functions of [nodes.py] and proves the
    properties stated about them.

    Conventions of the embedding.
    - numpy's float64 arrays of one dimension are lists of real numbers;
      [np.log], [np.exp] and the arithmetic of [np.interp] are the exact
      real operations (rounding is not modelled).
    - A Python exception is a value of [exn]; a call that may raise returns
      a [result].
    - The integer inputs of the nodes are declared with a minimum that is
      not negative; they are natural numbers.
    - The diffusion pipeline, the pose detector, the drawing routine,
      [np.polyfit] and the tensor conversions are external to [nodes.py];
      they are the fields of the class [Backend].  Calls to the pipeline,
      the decoder and the detector are recorded in a log of events, so that
      "before the pipeline is invoked" is a statement about the log.
    - The pipeline object is shared between the calls that are given one
      bundle: it lives in a store and the bundle holds a reference to it.
    - [DownloadAndLoadMimicMotionModel] only fetches and assembles external
      components and is not embedded. *)

From Stdlib Require Import String.
From Stdlib Require Import Reals Lra Lia Arith Bool List Sorted.
Import ListNotations.

Set Implicit Arguments.

(** ** Exceptions and results *)

Inductive exn : Type :=
| AssertionError (msg : string)
| ValueError (msg : string)
| IndexError
| ZeroDivisionError
| RuntimeError (msg : string)
| ExternalError (tag : nat).

Inductive result (A : Type) : Type :=
| Ok (a : A)
| Raise (e : exn).

Arguments Ok {A} a.
Arguments Raise {A} e.

Definition rbind {A B : Type} (r : result A) (k : A -> result B) : result B :=
  match r with
  | Ok a => k a
  | Raise e => Raise e
  end.

Declare Scope result_scope.
Delimit Scope result_scope with result.
Notation "'let?' x ':=' r 'in' k" := (rbind r (fun x => k))
  (at level 10, x pattern, r at level 100, k at level 200) : result_scope.

(** Does the call end in a failed [assert]? *)
Definition is_assertion {A : Type} (r : result A) : bool :=
  match r with
  | Raise (AssertionError _) => true
  | _ => false
  end.

(** ** The numpy routines used by [loglinear_interp] *)

Module Numpy.

Local Open Scope R_scope.

(** [np.linspace(0, 1, num)]: [num] evenly spaced samples over [0, 1], both
    ends included.  One sample is the left end; no sample is the empty
    array. *)
Definition linspace01 (num : nat) : list R :=
  match num with
  | O => []
  | S O => [0]
  | S m => map (fun i => INR i / INR m) (seq 0 num)
  end.

(** One evaluation of the piecewise linear interpolant behind [np.interp],
    once the sample [x] is known not to lie left of the data point
    [(x0, f0)]: walk the data points to the segment [x0 <= x < x1]; right of
    the last data point the value is the last [fp]. *)
Fixpoint interp_seg (x x0 f0 : R) (xp fp : list R) : R :=
  match xp, fp with
  | x1 :: xp', f1 :: fp' =>
      if Rlt_dec x x1
      then (f1 - f0) / (x1 - x0) * (x - x0) + f0
      else interp_seg x x1 f1 xp' fp'
  | _, _ => f0
  end.

(** [np.interp] at one sample: left of the first data point the value is
    the first [fp]. *)
Definition interp1 (xp fp : list R) (x : R) : R :=
  match xp, fp with
  | x0 :: xp', f0 :: fp' =>
      if Rlt_dec x x0 then f0 else interp_seg x x0 f0 xp' fp'
  | _, _ => 0
  end.

(** [np.interp(x, xp, fp)]: raises [ValueError] on an empty [xp] and when
    [xp] and [fp] differ in length. *)
Definition interp (xs xp fp : list R) : result (list R) :=
  if (length xp =? 0)%nat
  then Raise (ValueError "array of sample points is empty"%string)
  else if negb (length fp =? length xp)%nat
  then Raise (ValueError "fp and xp are not of the same length."%string)
  else Ok (map (interp1 xp fp) xs).

End Numpy.

(** ** [loglinear_interp] *)

Local Open Scope R_scope.
Local Open Scope result_scope.

(** [t_steps[::-1]] is [rev t_steps], [np.log] and [np.exp] are mapped over
    the arrays.  [np.log] of a number that is not positive is [nan] or
    [-inf] with a warning, not an exception; the statements about this
    function take positive inputs. *)
Definition loglinear_interp (t_steps : list R) (num_steps : nat)
  : result (list R) :=
  let xs := Numpy.linspace01 (length t_steps) in
  let ys := map ln (rev t_steps) in
  let new_xs := Numpy.linspace01 num_steps in
  let? new_ys := Numpy.interp new_xs xs ys in
  let interped_ys := rev (map exp new_ys) in
  Ok interped_ys.

(** ** Python list operations used by the nodes *)

(** [l[-k:]]: the last [k] elements; the whole of [l] when [k] is not
    smaller than its length (and when [k] is zero, since [-0] is [0]). *)
Definition slice_last {A : Type} (k : nat) (l : list A) : list A :=
  if (k =? 0)%nat then l else skipn (length l - k) l.

(** [l[-1] = v]: raises [IndexError] on an empty sequence. *)
Definition set_last {A : Type} (v : A) (l : list A) : result (list A) :=
  match l with
  | [] => Raise IndexError
  | _ :: _ => Ok (removelast l ++ [v])
  end.

(** [a[ids]] with a list of row indices: raises [IndexError] when an index
    is out of range. *)
Fixpoint take_rows {A : Type} (ids : list nat) (a : list A)
  : result (list A) :=
  match ids with
  | [] => Ok []
  | i :: ids' =>
      match nth_error a i with
      | Some row =>
          let? rows := take_rows ids' a in Ok (row :: rows)
      | None => Raise IndexError
      end
  end.

Fixpoint map_result {A B : Type} (f : A -> result B) (l : list A)
  : result (list B) :=
  match l with
  | [] => Ok []
  | a :: l' =>
      let? b := f a in
      let? bs := map_result f l' in
      Ok (b :: bs)
  end.

(** [np.tile(v, k)] for a vector [v]. *)
Fixpoint tile {A : Type} (v : list A) (k : nat) : list A :=
  match k with
  | O => []
  | S k' => v ++ tile v k'
  end.

(** Elementwise combination of two vectors of one length. *)
Fixpoint zip_with {A B C : Type} (f : A -> B -> C) (l : list A) (r : list B)
  : list C :=
  match l, r with
  | a :: l', b :: r' => f a b :: zip_with f l' r'
  | _, _ => []
  end.

(** [np.mean] of a vector, in exact arithmetic. *)
Definition mean (v : list R) : R :=
  fold_right Rplus 0 v / INR (length v).

(** ** External components *)

(** The outcome of a call into an external component: a value, or a failure
    that reaches the node as an exception which is not an assertion. *)
Inductive ext (A : Type) : Type :=
| Done (a : A)
| Failed (tag : nat).

Arguments Done {A} a.
Arguments Failed {A} tag.

Definition lift_ext {A : Type} (x : ext A) : result A :=
  match x with
  | Done a => Ok a
  | Failed tag => Raise (ExternalError tag)
  end.

Inductive Dtype : Type := fp32 | fp16 | bf16.

Inductive device : Type := torch_device | offload_device.

(** The pipeline object: the fields that [nodes.py] reads or assigns. *)
Record pipeline_obj (Scheduler Weights : Type) : Type := {
  weights : Weights;
  scheduler : Scheduler;
  unet_device : device;
  vae_device : device
}.

(** An image tensor of the host, [B, H, W, C]: its frames along the first
    axis and the three other dimensions. *)
Record batch (Tensor : Type) : Type := {
  frames : list Tensor;
  height : nat;
  width : nat;
  channels : nat
}.

Definition shape {Tensor : Type} (t : batch Tensor) : list nat :=
  [length (frames t); height t; width t; channels t].

(** The keyword arguments of the pipeline call of the sampler. *)
Record pipeline_args (Tensor : Type) : Type := {
  arg_image : list Tensor;
  arg_image_pose : list Tensor;
  arg_num_frames : nat;
  arg_tile_size : nat;
  arg_tile_overlap : nat;
  arg_height : nat;
  arg_width : nat;
  arg_fps : nat;
  arg_noise_aug_strength : R;
  arg_num_inference_steps : nat;
  arg_generator_seed : nat;
  arg_min_guidance_scale : R;
  arg_max_guidance_scale : R;
  arg_decode_chunk_size : nat;
  arg_output_type : string;
  arg_sigmas : option (list R)
}.

(** A keypoint row [[x, y]]. *)
Definition point : Type := (R * R)%type.

(** The dictionary returned by the pose detector. *)
Record bodies_t : Type := {
  candidate : list point;
  subset : list (list R);
  score : list (list R)
}.

Record pose_t : Type := {
  bodies : bodies_t;
  hands : list (list point);
  hands_score : list (list R);
  faces : list (list point);
  faces_score : list (list R)
}.

Class Backend : Type := {
  Scheduler : Type;
  Weights : Type;
  Tensor : Type;
  (* the two scheduler constructors of [DiffusersScheduler.loadmodel],
     by [sigma_min] and [sigma_max] *)
  euler_from_config : R -> R -> Scheduler;
  animate_lcm_svd : R -> R -> Scheduler;
  (* per-frame tensor operations of the sampler *)
  hwc_to_chw : Tensor -> Tensor;
  times2_minus1 : Tensor -> Tensor;
  to_device_dtype : Dtype -> Tensor -> Tensor;
  (* [pipeline(...).frames] *)
  run_pipeline :
    pipeline_obj Scheduler Weights -> pipeline_args Tensor -> ext Tensor;
  (* [samples.shape[0]], [pipeline.decode_latents], [tensor2vid] (the
     slices of its result along the first axis) *)
  dim0 : Tensor -> nat;
  decode_latents :
    pipeline_obj Scheduler Weights -> Tensor -> nat -> nat -> ext Tensor;
  tensor2vid : Tensor -> list Tensor;
  squeeze1 : Tensor -> Tensor;
  chw_to_hwc : Tensor -> Tensor;
  cpu_float : Tensor -> Tensor;
  (* the 4-dimensional array of a whole batch, as one array *)
  batch_array : list Tensor -> Tensor;
  (* the pose detector, the drawing routine and [np.polyfit(x, y, 1)] *)
  times255 : Tensor -> Tensor;
  dwprocessor : Tensor -> ext pose_t;
  draw_pose : pose_t -> nat -> nat -> bool -> bool -> bool -> Tensor;
  as_tensor : Tensor -> Tensor;
  div255 : Tensor -> Tensor;
  polyfit1 : list R -> list R -> ext (R * R)
}.

(** ** The world of a node call: shared pipeline objects, model files, log *)

Section World.

Context {B : Backend}.

Inductive event : Type :=
| EvUnloadAllModels
| EvSoftEmptyCache
| EvGcCollect
| EvPipeline (p : pipeline_obj Scheduler Weights) (a : pipeline_args Tensor)
| EvDecode (num_frames chunk : nat)
| EvDownload (file : string)
| EvLoadDetector
| EvDetect (img : Tensor).

(** Pipeline objects live in a store and are named by reference: two
    bundles with one reference share the object. *)
Record world : Type := {
  pipes : nat -> pipeline_obj Scheduler Weights;
  files : string -> bool;
  trace : list event
}.

Definition M (A : Type) : Type := world -> result A * world.

Definition ret {A : Type} (a : A) : M A := fun w => (Ok a, w).

Definition bind {A C : Type} (m : M A) (k : A -> M C) : M C :=
  fun w =>
    match m w with
    | (Ok a, w') => k a w'
    | (Raise e, w') => (Raise e, w')
    end.

Definition raise {A : Type} (e : exn) : M A := fun w => (Raise e, w).

Definition lift {A : Type} (r : result A) : M A := fun w => (r, w).

(** [try: m  except: h] with a bare [except]. *)
Definition try_except {A : Type} (m h : M A) : M A :=
  fun w =>
    match m w with
    | (Ok a, w') => (Ok a, w')
    | (Raise _, w') => h w'
    end.

Definition assert_ (b : bool) (msg : string) : M unit :=
  if b then ret tt else raise (AssertionError msg).

(** The three updates of the world. *)
Definition log (e : event) (w : world) : world :=
  {| pipes := pipes w; files := files w; trace := trace w ++ [e] |}.

Definition with_pipe (r : nat) (p : pipeline_obj Scheduler Weights)
  (w : world) : world :=
  {| pipes := fun r' => if (r' =? r)%nat then p else pipes w r';
     files := files w;
     trace := trace w |}.

Definition with_file (f : string) (w : world) : world :=
  {| pipes := pipes w;
     files := fun f' => if String.eqb f' f then true else files w f';
     trace := trace w |}.

Definition emit (e : event) : M unit := fun w => (Ok tt, log e w).

Definition get_pipe (r : nat) : M (pipeline_obj Scheduler Weights) :=
  fun w => (Ok (pipes w r), w).

Definition set_pipe (r : nat) (p : pipeline_obj Scheduler Weights) : M unit :=
  fun w => (Ok tt, with_pipe r p w).

Definition path_exists (f : string) : M bool :=
  fun w => (Ok (files w f), w).

(** [snapshot_download]: the file is present afterwards. *)
Definition snapshot_download (f : string) : M unit :=
  fun w => (Ok tt, with_file f (log (EvDownload f) w)).

Fixpoint for_each {A C : Type} (f : A -> M C) (l : list A) : M (list C) :=
  match l with
  | [] => ret []
  | a :: l' =>
      bind (f a) (fun c => bind (for_each f l') (fun cs => ret (c :: cs)))
  end.

(** What a log says about the external components. *)
Definition pipeline_calls (l : list event)
  : list (pipeline_obj Scheduler Weights * pipeline_args Tensor) :=
  flat_map (fun e => match e with EvPipeline p a => [(p, a)] | _ => [] end) l.

Definition decode_calls (l : list event) : list (nat * nat) :=
  flat_map (fun e => match e with EvDecode n c => [(n, c)] | _ => [] end) l.

Definition detector_runs (l : list event) : list Tensor :=
  flat_map (fun e => match e with EvDetect img => [img] | _ => [] end) l.

End World.

Declare Scope node_scope.
Delimit Scope node_scope with node.
Notation "x <- c ;; k" := (bind c (fun x => k))
  (at level 61, c at next level, right associativity) : node_scope.
Notation "c ;; k" := (bind c (fun _ => k))
  (at level 61, right associativity) : node_scope.

Local Open Scope node_scope.
Local Open Scope string_scope.

(** The dictionary [{'pipeline': pipeline, 'dtype': dtype}] built by the
    model loader; [bundle_pipeline] is a reference into the store. *)
Record mimic_bundle : Type := {
  bundle_pipeline : nat;
  bundle_dtype : Dtype
}.

(** ** [DiffusersScheduler] *)

Module DiffusersScheduler.

Inductive scheduler_choice : Type :=
| EulerDiscreteScheduler
| AnimateLCM_SVD.

Definition align_your_steps_sigmas : list R :=
  [700.00; 54.5; 15.886; 7.977; 4.248; 1.789; 0.981; 0.403; 0.173; 0.034;
   0.002].

Section Node.

Context {B : Backend}.

Record scheduler_options : Type := {
  noise_scheduler : Scheduler;
  sigmas : option (list R)
}.

Definition loadmodel (choice : scheduler_choice) (sigma_min sigma_max : R)
  (align_your_steps : bool) : scheduler_options :=
  let noise_scheduler :=
    match choice with
    | EulerDiscreteScheduler => euler_from_config sigma_min sigma_max
    | AnimateLCM_SVD => animate_lcm_svd sigma_min sigma_max
    end in
  {| noise_scheduler := noise_scheduler;
     sigmas := if align_your_steps then Some align_your_steps_sigmas
               else None |}.

End Node.

End DiffusersScheduler.

(** ** [MimicMotionSampler] *)

Module MimicMotionSampler.

Import DiffusersScheduler.

(** The sigma table after lines 267-273: re-interpolated to [steps + 1]
    entries with the last one set to zero when the lengths differ, as it is
    otherwise. *)
Definition resolve_sigmas (sigmas : option (list R)) (steps : nat)
  : result (option (list R)) :=
  match sigmas with
  | Some table =>
      if negb (steps + 1 =? length table)%nat
      then
        let? s := loglinear_interp table (steps + 1) in
        let s := slice_last (steps + 1) s in
        let? s := set_last 0 s in
        Ok (Some s)
      else Ok (Some table)
  | None => Ok None
  end.

Section Node.

Context {B : Backend}.

Record latent : Type := { samples : Tensor }.

(** [pipeline.scheduler = s] *)
Definition assign_scheduler (s : Scheduler)
  (p : pipeline_obj Scheduler Weights) : pipeline_obj Scheduler Weights :=
  {| weights := weights p; scheduler := s;
     unet_device := unet_device p; vae_device := vae_device p |}.

Definition set_scheduler (r : nat) (s : Scheduler) : M unit :=
  p <- get_pipe r ;;
  set_pipe r (assign_scheduler s p).

(** [pipeline.unet.to(offload_device)], [pipeline.vae.to(offload_device)] *)
Definition unet_to (d : device) (p : pipeline_obj Scheduler Weights)
  : pipeline_obj Scheduler Weights :=
  {| weights := weights p; scheduler := scheduler p;
     unet_device := d; vae_device := vae_device p |}.

Definition vae_to (d : device) (p : pipeline_obj Scheduler Weights)
  : pipeline_obj Scheduler Weights :=
  {| weights := weights p; scheduler := scheduler p;
     unet_device := unet_device p; vae_device := d |}.

(** Lines 313-317. *)
Definition offload (r : nat) : M unit :=
  p <- get_pipe r ;;
  set_pipe r (unet_to offload_device p) ;;
  p <- get_pipe r ;;
  set_pipe r (vae_to offload_device p) ;;
  emit EvSoftEmptyCache ;;
  emit EvGcCollect.

(** Lines 262-276: the scheduler installed into the pipeline and the sigma
    table that goes with it. *)
Definition select_scheduler (pipeline steps : nat)
  (optional_scheduler : option scheduler_options)
  : M (option (list R)) :=
  p0 <- get_pipe pipeline ;;
  let original_scheduler := scheduler p0 in
  match optional_scheduler with
  | Some opt =>
      set_scheduler pipeline (noise_scheduler opt) ;;
      lift (resolve_sigmas (sigmas opt) steps)
  | None =>
      set_scheduler pipeline original_scheduler ;;
      ret None
  end.

(** The arguments of the pipeline call at lines 293-311, with the tensor
    preparation of lines 282-288. *)
Definition call_args (dtype : Dtype) (ref_image pose_images : batch Tensor)
  (cfg_min cfg_max : R) (steps seed : nat) (noise_aug_strength : R)
  (fps context_size context_overlap : nat) (sigmas : option (list R))
  : pipeline_args Tensor :=
  let Bn := length (frames pose_images) in
  let Hn := height pose_images in
  let Wn := width pose_images in
  let ref_image := map hwc_to_chw (frames ref_image) in
  let pose_images := map hwc_to_chw (frames pose_images) in
  let pose_images := map times2_minus1 pose_images in
  let ref_image := map (to_device_dtype dtype) ref_image in
  let pose_images := map (to_device_dtype dtype) pose_images in
  {| arg_image := ref_image;
     arg_image_pose := pose_images;
     arg_num_frames := Bn;
     arg_tile_size := context_size;
     arg_tile_overlap := context_overlap;
     arg_height := Hn;
     arg_width := Wn;
     arg_fps := fps;
     arg_noise_aug_strength := noise_aug_strength;
     arg_num_inference_steps := steps;
     arg_generator_seed := seed;
     arg_min_guidance_scale := cfg_min;
     arg_max_guidance_scale := cfg_max;
     arg_decode_chunk_size := 4;
     arg_output_type := "latent";
     arg_sigmas := sigmas |}.

Definition assert_message : string :=
  "The number of poses must be greater than the context size".

Definition process (mimic_pipeline : mimic_bundle)
  (ref_image pose_images : batch Tensor) (cfg_min cfg_max : R)
  (steps seed : nat) (noise_aug_strength : R) (fps : nat)
  (keep_model_loaded : bool) (context_size context_overlap : nat)
  (optional_scheduler : option scheduler_options) : M latent :=
  emit EvUnloadAllModels ;;
  emit EvSoftEmptyCache ;;
  let dtype := bundle_dtype mimic_pipeline in
  let pipeline := bundle_pipeline mimic_pipeline in
  sigmas <- select_scheduler pipeline steps optional_scheduler ;;
  let Bn := length (frames pose_images) in
  assert_ (context_size <=? Bn)%nat assert_message ;;
  let args :=
    call_args dtype ref_image pose_images cfg_min cfg_max steps seed
      noise_aug_strength fps context_size context_overlap sigmas in
  p <- get_pipe pipeline ;;
  emit (EvPipeline p args) ;;
  frames <- lift (lift_ext (run_pipeline p args)) ;;
  (if negb keep_model_loaded then offload pipeline else ret tt) ;;
  ret {| samples := frames |}.

End Node.

End MimicMotionSampler.

(** ** [MimicMotionDecode] *)

Module MimicMotionDecode.

Section Node.

Context {B : Backend}.

(** One call of [pipeline.decode_latents]. *)
Definition decode (r : nat) (s : Tensor) (num_frames chunk : nat)
  : M Tensor :=
  p <- get_pipe r ;;
  emit (EvDecode num_frames chunk) ;;
  lift (lift_ext (decode_latents p s num_frames chunk)).

Definition process (mimic_pipeline : mimic_bundle)
  (samples : MimicMotionSampler.latent) (decode_chunk_size : nat)
  : M (list Tensor) :=
  emit EvSoftEmptyCache ;;
  let pipeline := bundle_pipeline mimic_pipeline in
  let num_frames := dim0 (MimicMotionSampler.samples samples) in
  frames <-
    try_except
      (decode pipeline (MimicMotionSampler.samples samples) num_frames
         decode_chunk_size)
      (decode pipeline (MimicMotionSampler.samples samples) num_frames 1) ;;
  let frames := tensor2vid frames in
  let frames := map cpu_float (map chw_to_hwc (tl (map squeeze1 frames))) in
  ret frames.

End Node.

End MimicMotionDecode.

(** ** [MimicMotionGetPoses] *)

Module MimicMotionGetPoses.

Definition assert_message : string :=
  "ref_image and pose_images must have the same resolution".

Definition yolo_model : string := "yolox_l.onnx".
Definition dw_pose_model : string := "dw-ll_ucoco_384.onnx".
Definition model_base_path : string := "models/DWPose".
Definition path_join (a b : string) : string := a ++ "/" ++ b.

(** [ref_image.shape[1:3] == pose_images.shape[1:3]] *)
Definition same_resolution {T : Type} (ref_image pose_images : batch T)
  : bool :=
  if list_eq_dec Nat.eq_dec
       (firstn 2 (skipn 1 (shape ref_image)))
       (firstn 2 (skipn 1 (shape pose_images)))
  then true else false.

(** [height, width, _ = ref_image.shape] at line 412, on the array that
    [squeeze(0)] returned: the three dimensions of the one frame of a batch
    of one; the four dimensions of a batch that was not squeezed are too
    many for the three names. *)
Definition unpack_shape {T : Type} (ref_image : batch T)
  : result (nat * nat) :=
  match frames ref_image with
  | [_] => Ok (height ref_image, width ref_image)
  | _ => Raise (ValueError "too many values to unpack (expected 3)")
  end.

Definition ref_keypoint_candidates : list nat :=
  [0; 1; 2; 5; 8; 11; 14; 15; 16; 17]%nat.

(** The condition of the comprehension at lines 408-409:
    [score.shape[0] > 0 and score[0][i] > 0.3]. *)
Definition keep_ref_keypoint (sc : list (list R)) (i : nat) : result bool :=
  match sc with
  | [] => Ok false
  | row0 :: _ =>
      match nth_error row0 i with
      | Some s => Ok (if Rgt_dec s 0.3 then true else false)
      | None => Raise IndexError
      end
  end.

Fixpoint select_ref_keypoints (sc : list (list R)) (ids : list nat)
  : result (list nat) :=
  match ids with
  | [] => Ok []
  | i :: ids' =>
      let? keep := keep_ref_keypoint sc i in
      let? kept := select_ref_keypoints sc ids' in
      Ok (if keep then i :: kept else kept)
  end.

(** [p['bodies']['candidate'].shape[0] == 18] *)
Definition has_18_keypoints (p : pose_t) : bool :=
  (length (candidate (bodies p)) =? 18)%nat.

(** [np.stack] and [torch.stack]: no sequence to stack is an error. *)
Definition stack {A : Type} (l : list A) : result (list A) :=
  match l with
  | [] => Raise (ValueError "need at least one array to stack")
  | _ :: _ => Ok l
  end.

Definition torch_stack {A : Type} (l : list A) : result (list A) :=
  match l with
  | [] => Raise (RuntimeError "stack expects a non-empty TensorList")
  | _ :: _ => Ok l
  end.

(** Lines 422-424: the candidates of the frames with 18 keypoints, stacked,
    then restricted to the reference indices. *)
Definition detected_bodies (ref_keypoint_id : list nat)
  (detected_poses_np_list : list pose_t) : result (list (list point)) :=
  let? stacked :=
    stack (map (fun p => candidate (bodies p))
             (filter has_18_keypoints detected_poses_np_list)) in
  map_result (take_rows ref_keypoint_id) stacked.

(** The two vectors handed to [np.polyfit] at line 426. *)
Definition fit_x (db : list (list point)) : list R :=
  flat_map (map snd) db.

Definition fit_y (ref_body : list point) (db : list (list point)) : list R :=
  tile (map snd ref_body) (length db).

(** [fh, fw, _ = pose_images_np[0].shape]: the dimensions of the first
    frame, which are those of the batch. *)
Definition first_frame_shape {T : Type} (pose_images : batch T)
  : result (nat * nat) :=
  match frames pose_images with
  | [] => Raise IndexError
  | _ :: _ => Ok (height pose_images, width pose_images)
  end.

(** [fh / fw / height * width] on Python integers. *)
Definition aspect_ratio (fh fw height width : nat) : result R :=
  if (fw =? 0)%nat then Raise ZeroDivisionError
  else if (height =? 0)%nat then Raise ZeroDivisionError
  else Ok (INR fh / INR fw / INR height * INR width).

Section Node.

Context {B : Backend}.

(** [ref_image.squeeze(0)] at line 403: the one frame of a batch of one; a
    batch of another size is returned as it is, 4-dimensional. *)
Definition squeeze0 (ref_image : batch Tensor) : Tensor :=
  match frames ref_image with
  | [img] => img
  | l => batch_array l
  end.

(** Lines 426-431: the scale [a] and the offset [b] of the rescale.  The
    division of [ay] is numpy's, which does not raise on a zero divisor;
    no statement below depends on its value there. *)
Definition rescale_params (ref_body : list point) (db : list (list point))
  (fh fw height width : nat) : result (point * point) :=
  let? fit := lift_ext (polyfit1 (fit_x db) (fit_y ref_body db)) in
  let ay := fst fit in
  let by_ := snd fit in
  let? ratio := aspect_ratio fh fw height width in
  let ax := ay / ratio in
  let bx :=
    mean (zip_with Rminus
            (tile (map fst ref_body) (length db))
            (map (fun x => x * ax) (flat_map (map fst) db))) in
  Ok ((ax, ay), (bx, by_)).

(** [keypoints * a + b], broadcast over rows [[x, y]]. *)
Definition affine (a b : point) (p : point) : point :=
  (fst p * fst a + fst b, snd p * snd a + snd b).

Definition set_candidate (c : list point) (p : pose_t) : pose_t :=
  {| bodies := {| candidate := c;
                  subset := subset (bodies p);
                  score := score (bodies p) |};
     hands := hands p; hands_score := hands_score p;
     faces := faces p; faces_score := faces_score p |}.

Definition set_faces (f : list (list point)) (p : pose_t) : pose_t :=
  {| bodies := bodies p;
     hands := hands p; hands_score := hands_score p;
     faces := f; faces_score := faces_score p |}.

Definition set_hands (h : list (list point)) (p : pose_t) : pose_t :=
  {| bodies := bodies p;
     hands := h; hands_score := hands_score p;
     faces := faces p; faces_score := faces_score p |}.

(** Lines 435-440: the three guarded assignments of the rescale loop. *)
Definition rescale_pose (include_body include_hand include_face : bool)
  (a b : point) (detected_pose : pose_t) : pose_t :=
  let detected_pose :=
    if include_body
    then set_candidate
           (map (affine a b) (candidate (bodies detected_pose)))
           detected_pose
    else detected_pose in
  let detected_pose :=
    if include_hand
    then set_faces (map (map (affine a b)) (faces detected_pose))
           detected_pose
    else detected_pose in
  let detected_pose :=
    if include_face
    then set_hands (map (map (affine a b)) (hands detected_pose))
           detected_pose
    else detected_pose in
  detected_pose.

(** One run of the detector. *)
Definition detect (img : Tensor) : M pose_t :=
  emit (EvDetect img) ;;
  lift (lift_ext (dwprocessor img)).

Definition ensure_model (file : string) : M unit :=
  present <- path_exists file ;;
  if negb present then snapshot_download file else ret tt.

(** Lines 403-452, after the models are in place. *)
Definition process_body (ref_image pose_images : batch Tensor)
  (include_body include_hand include_face : bool)
  : M (list Tensor * list Tensor) :=
  let ref_image_np := times255 (squeeze0 ref_image) in
  ref_pose <- detect ref_image_np ;;
  ref_keypoint_id <-
    lift (select_ref_keypoints (score (bodies ref_pose))
            ref_keypoint_candidates) ;;
  ref_body <- lift (take_rows ref_keypoint_id (candidate (bodies ref_pose))) ;;
  hw <- lift (unpack_shape ref_image) ;;
  let height := fst hw in
  let width := snd hw in
  let pose_images_np := map times255 (frames pose_images) in
  detected_poses_np_list <- for_each detect pose_images_np ;;
  db <- lift (detected_bodies ref_keypoint_id detected_poses_np_list) ;;
  frame_shape <- lift (first_frame_shape pose_images) ;;
  let fh := fst frame_shape in
  let fw := snd frame_shape in
  ab <- lift (rescale_params ref_body db fh fw height width) ;;
  let a := fst ab in
  let b := snd ab in
  let output_pose :=
    map (fun detected_pose =>
           draw_pose
             (rescale_pose include_body include_hand include_face a b
                detected_pose)
             height width include_body include_hand include_face)
      detected_poses_np_list in
  let output_pose_tensors := map as_tensor output_pose in
  output_tensor <- lift (torch_stack output_pose_tensors) ;;
  let output_tensor := map div255 output_tensor in
  let ref_pose_img :=
    draw_pose ref_pose height width include_body include_hand include_face in
  let ref_pose_tensor := div255 (as_tensor ref_pose_img) in
  let output_tensor := ref_pose_tensor :: output_tensor in
  let output_tensor := map (fun t => cpu_float (chw_to_hwc t)) output_tensor in
  ret (output_tensor, tl output_tensor).

Definition process (ref_image pose_images : batch Tensor)
  (include_body include_hand include_face : bool)
  : M (list Tensor * list Tensor) :=
  assert_ (same_resolution ref_image pose_images) assert_message ;;
  let model_det := path_join model_base_path yolo_model in
  let model_pose := path_join model_base_path dw_pose_model in
  ensure_model model_det ;;
  ensure_model model_pose ;;
  emit EvLoadDetector ;;
  process_body ref_image pose_images include_body include_hand include_face.

End Node.

End MimicMotionGetPoses.

(** ** A small concrete backend, for running the nodes on examples

    Tensors are numbers.  The pipeline returns as many latent frames as it
    was given poses; decoding fails for chunks of more than one frame; the
    detector finds nobody in image [0], two people in image [2] and one
    person in every other image. *)

Module Demo.

Definition person : pose_t :=
  {| bodies := {| candidate := repeat (1, 2) 18;
                  subset := [repeat 1 18];
                  score := [repeat 1 18] |};
     hands := [[(3, 4)]; [(5, 6)]];
     hands_score := [[1]; [1]];
     faces := [[(7, 8)]];
     faces_score := [[1]] |}.

Definition nobody : pose_t :=
  {| bodies := {| candidate := []; subset := []; score := [] |};
     hands := []; hands_score := [];
     faces := []; faces_score := [] |}.

Definition two_people : pose_t :=
  {| bodies := {| candidate := repeat (1, 2) 36;
                  subset := [repeat 1 18; repeat 1 18];
                  score := [repeat 1 18; repeat 1 18] |};
     hands := [[(3, 4)]; [(5, 6)]; [(3, 4)]; [(5, 6)]];
     hands_score := [[1]; [1]; [1]; [1]];
     faces := [[(7, 8)]; [(7, 8)]];
     faces_score := [[1]; [1]] |}.

Definition detector (img : nat) : ext pose_t :=
  match img with
  | 0%nat => Done nobody
  | 2%nat => Done two_people
  | _ => Done person
  end.

Definition fit (x y : list R) : ext (R * R) :=
  match x with
  | [] => Failed 1
  | _ :: _ => Done (1, 0)
  end.

#[local] Instance backend : Backend := {|
  Scheduler := nat;
  Weights := unit;
  Tensor := nat;
  euler_from_config := fun _ _ => 1%nat;
  animate_lcm_svd := fun _ _ => 2%nat;
  hwc_to_chw := fun t => t;
  times2_minus1 := fun t => t;
  to_device_dtype := fun _ t => t;
  run_pipeline := fun _ a => Done (arg_num_frames a);
  dim0 := fun t => t;
  decode_latents :=
    fun _ t _ chunk => if (chunk <=? 1)%nat then Done t else Failed 2;
  tensor2vid := fun t => seq 0 t;
  squeeze1 := fun t => t;
  chw_to_hwc := fun t => t;
  cpu_float := fun t => t;
  batch_array := fun l => length l;
  times255 := fun t => t;
  dwprocessor := detector;
  draw_pose := fun p _ _ _ _ _ => length (candidate (bodies p));
  as_tensor := fun t => t;
  div255 := fun t => t;
  polyfit1 := fit
|}.

Definition pipe0 : pipeline_obj nat unit :=
  {| weights := tt; scheduler := 0%nat;
     unet_device := torch_device; vae_device := torch_device |}.

Definition world0 : world :=
  {| pipes := fun _ => pipe0; files := fun _ => false; trace := [] |}.

Definition bundle0 : mimic_bundle :=
  {| bundle_pipeline := 0; bundle_dtype := fp16 |}.

(** Latents of three frames. *)
Definition three_frames : @MimicMotionSampler.latent backend :=
  @MimicMotionSampler.Build_latent backend 3%nat.

(** An image batch of the given frames, 4 by 3 pixels, 3 channels. *)
Definition images (l : list nat) : batch nat :=
  {| frames := l; height := 4; width := 3; channels := 3 |}.

End Demo.

(** The same backend with a pipeline that fails and a detector that fails
    on image [9]. *)

Module DemoFailing.

Definition detector (img : nat) : ext pose_t :=
  match img with
  | 9%nat => Failed 3
  | _ => Demo.detector img
  end.

#[local] Instance backend : Backend := {|
  Scheduler := nat;
  Weights := unit;
  Tensor := nat;
  euler_from_config := fun _ _ => 1%nat;
  animate_lcm_svd := fun _ _ => 2%nat;
  hwc_to_chw := fun t => t;
  times2_minus1 := fun t => t;
  to_device_dtype := fun _ t => t;
  run_pipeline := fun _ _ => Failed 7;
  dim0 := fun t => t;
  decode_latents :=
    fun _ t _ chunk => if (chunk <=? 1)%nat then Done t else Failed 2;
  tensor2vid := fun t => seq 0 t;
  squeeze1 := fun t => t;
  chw_to_hwc := fun t => t;
  cpu_float := fun t => t;
  batch_array := fun l => length l;
  times255 := fun t => t;
  dwprocessor := detector;
  draw_pose := fun p _ _ _ _ _ => length (candidate (bodies p));
  as_tensor := fun t => t;
  div255 := fun t => t;
  polyfit1 := Demo.fit
|}.

Definition world0 : world :=
  {| pipes := fun _ => Demo.pipe0; files := fun _ => false; trace := [] |}.

Definition images (l : list nat) : batch nat :=
  {| frames := l; height := 4; width := 3; channels := 3 |}.

End DemoFailing.

(** A backend whose images show their keypoints: an image is the list of
    the body keypoints that the detector finds in it, and the drawing of a
    pose is the list of the keypoints it is asked to draw, so that every
    coordinate of a rescaled pose can be read in the output.  The detector
    is confident of every body keypoint but the last.  The fit returns the
    line through the first and the last point it is given, which is the
    line of least squares when the points are on one line. *)

Module DemoKeypoints.

Local Open Scope R_scope.
Local Open Scope list_scope.

Definition detector (img : list point) : ext pose_t :=
  Done {| bodies := {| candidate := img;
                       subset := [repeat 1 18];
                       score := [repeat 1 17 ++ [0.1]] |};
          hands := [[(10, 20)]];
          hands_score := [[1]];
          faces := [[(30, 40)]];
          faces_score := [[1]] |}.

Definition draw (p : pose_t) (include_body include_hand include_face : bool)
  : list point :=
  (if include_body then candidate (bodies p) else []) ++
  (if include_hand then concat (hands p) else []) ++
  (if include_face then concat (faces p) else []).

Definition fit (x y : list R) : ext (R * R) :=
  match x with
  | [] => Failed 1
  | _ :: _ =>
      let slope := (last y 0 - hd 0 y) / (last x 0 - hd 0 x) in
      Done (slope, hd 0 y - slope * hd 0 x)
  end.

#[local] Instance backend : Backend := {|
  Scheduler := nat;
  Weights := unit;
  Tensor := list point;
  euler_from_config := fun _ _ => 1%nat;
  animate_lcm_svd := fun _ _ => 2%nat;
  hwc_to_chw := fun t => t;
  times2_minus1 := fun t => t;
  to_device_dtype := fun _ t => t;
  run_pipeline := fun _ _ => Done [];
  dim0 := fun t => length t;
  decode_latents := fun _ t _ _ => Done t;
  tensor2vid := fun t => [t];
  squeeze1 := fun t => t;
  chw_to_hwc := fun t => t;
  cpu_float := fun t => t;
  batch_array := fun l => concat l;
  times255 := fun t => t;
  dwprocessor := detector;
  draw_pose := fun p _ _ ib ih if_ => draw p ib ih if_;
  as_tensor := fun t => t;
  div255 := fun t => t;
  polyfit1 := fit
|}.

Definition world0 : world :=
  {| pipes := fun _ => Demo.pipe0; files := fun _ => false; trace := [] |}.

(** An image batch of the given frames, 4 by 3 pixels, 3 channels. *)
Definition images (l : list (list point)) : batch (list point) :=
  {| frames := l; height := 4; width := 3; channels := 3 |}.

(** The reference image: 18 keypoints, of which the first 17 are the
    keypoints of the first pose frame scaled by 2 and moved by [(3, 1)]. *)
Definition ref_image : batch (list point) :=
  images [(5, 9) :: repeat (7, 13) 16 ++ [(0, 0)]].

(** A pose sequence of a frame with 18 keypoints and a frame with one. *)
Definition pose_images : batch (list point) :=
  images [(1, 4) :: repeat (2, 6) 16 ++ [(9, 9)]; [(1, 4)]].

End DemoKeypoints.

(** * Properties *)

Local Open Scope list_scope.

(** ** Sorted lists *)

Section SortedLists.

Context {A : Type}.

Lemma StronglySorted_snoc (R : A -> A -> Prop) (l : list A) (x : A) :
  StronglySorted R l -> Forall (fun a => R a x) l ->
  StronglySorted R (l ++ [x]).
Proof.
  induction l as [|a l IH]; intros Hs Hall; simpl.
  - constructor; constructor.
  - apply StronglySorted_inv in Hs. destruct Hs as [Hs Ha].
    inversion Hall; subst.
    constructor.
    + apply IH; assumption.
    + apply Forall_app. split; [assumption|]. constructor; [assumption|constructor].
Qed.

Lemma StronglySorted_rev_flip (R : A -> A -> Prop) (l : list A) :
  StronglySorted R l -> StronglySorted (fun a b => R b a) (rev l).
Proof.
  induction 1 as [|a l Hs IH Ha]; simpl.
  - constructor.
  - apply StronglySorted_snoc; [exact IH|].
    apply Forall_forall. intros b Hb. apply in_rev in Hb.
    rewrite Forall_forall in Ha. apply Ha. exact Hb.
Qed.

Lemma StronglySorted_map_in {C : Type} (R : A -> A -> Prop)
  (R' : C -> C -> Prop) (f : A -> C) (l : list A) :
  (forall a b, In a l -> In b l -> R a b -> R' (f a) (f b)) ->
  StronglySorted R l -> StronglySorted R' (map f l).
Proof.
  intros Hf Hs. induction Hs as [|a l Hs IH Ha]; simpl.
  - constructor.
  - constructor.
    + apply IH. intros x y Hx Hy. apply Hf; right; assumption.
    + apply Forall_map. rewrite Forall_forall in *. intros b Hb.
      apply Hf; [left; reflexivity | right; exact Hb | apply Ha; exact Hb].
Qed.

Lemma StronglySorted_weaken (R R' : A -> A -> Prop) (l : list A) :
  (forall a b, R a b -> R' a b) ->
  StronglySorted R l -> StronglySorted R' l.
Proof.
  intros Hw Hs. rewrite <- (map_id l).
  apply StronglySorted_map_in with (R := R); [|exact Hs].
  intros a b _ _. apply Hw.
Qed.

Lemma hd_rev (d : A) (l : list A) : hd d (rev l) = last l d.
Proof.
  induction l as [|a l IH]; [reflexivity|].
  simpl rev. destruct l as [|b l]; [reflexivity|].
  change (last (a :: b :: l) d) with (last (b :: l) d).
  rewrite <- IH. simpl. destruct (rev l) as [|c r]; reflexivity.
Qed.

Lemma last_rev (d : A) (l : list A) : last (rev l) d = hd d l.
Proof.
  rewrite <- (rev_involutive l) at 2. rewrite hd_rev. reflexivity.
Qed.

End SortedLists.

Lemma last_map {A C : Type} (f : A -> C) (l : list A) (d : A) :
  last (map f l) (f d) = f (last l d).
Proof.
  induction l as [|a l IH]; [reflexivity|].
  destruct l as [|b l]; [reflexivity|].
  exact IH.
Qed.

Lemma StronglySorted_seq (a n : nat) : StronglySorted lt (seq a n).
Proof.
  revert a. induction n as [|n IH]; intros a; simpl.
  - constructor.
  - constructor; [apply IH|].
    apply Forall_forall. intros x Hx. apply in_seq in Hx. lia.
Qed.

(** ** The interpolation routines *)

Module NumpyFacts.

Import Numpy.

Local Open Scope R_scope.

Lemma slope_nonneg (x0 x1 f0 f1 : R) :
  x0 < x1 -> f0 <= f1 -> 0 <= (f1 - f0) / (x1 - x0).
Proof.
  intros Hx Hf. unfold Rdiv. apply Rmult_le_pos; [lra|].
  left. apply Rinv_0_lt_compat. lra.
Qed.

Lemma slope_reaches (x0 x1 f0 f1 : R) :
  x0 < x1 -> (f1 - f0) / (x1 - x0) * (x1 - x0) = f1 - f0.
Proof. intros Hx. field. lra. Qed.

Ltac sorted_heads :=
  repeat match goal with
  | H : Sorted _ (_ :: _ :: _) |- _ =>
      let Hs := fresh "Hs" in
      let Hh := fresh "Hh" in
      apply Sorted_inv in H; destruct H as [Hs Hh];
      apply HdRel_inv in Hh
  end.

Lemma interp_seg_lower (x : R) (xp : list R) :
  forall (x0 f0 : R) (fp : list R),
    x0 <= x -> Sorted Rlt (x0 :: xp) -> Sorted Rle (f0 :: fp) ->
    f0 <= interp_seg x x0 f0 xp fp.
Proof.
  induction xp as [|x1 xp IH]; intros x0 f0 fp Hx Hxs Hfs; simpl.
  - lra.
  - destruct fp as [|f1 fp]; [lra|].
    sorted_heads.
    destruct (Rlt_dec x x1) as [Hlt|Hge].
    + assert (Hslope : 0 <= (f1 - f0) / (x1 - x0))
        by (apply slope_nonneg; assumption).
      nra.
    + assert (f1 <= interp_seg x x1 f1 xp fp) by (apply IH; [lra|assumption..]).
      lra.
Qed.

Lemma interp_seg_mono (x x' : R) (xp : list R) :
  forall (x0 f0 : R) (fp : list R),
    x0 <= x -> x <= x' -> Sorted Rlt (x0 :: xp) -> Sorted Rle (f0 :: fp) ->
    interp_seg x x0 f0 xp fp <= interp_seg x' x0 f0 xp fp.
Proof.
  induction xp as [|x1 xp IH]; intros x0 f0 fp Hx Hxx Hxs Hfs; simpl.
  - lra.
  - destruct fp as [|f1 fp]; [lra|].
    pose proof Hxs as Hxs'. pose proof Hfs as Hfs'.
    sorted_heads.
    assert (Hslope : 0 <= (f1 - f0) / (x1 - x0))
      by (apply slope_nonneg; assumption).
    destruct (Rlt_dec x x1) as [Hlt|Hge];
      destruct (Rlt_dec x' x1) as [Hlt'|Hge']; try lra.
    + nra.
    + assert (f1 <= interp_seg x' x1 f1 xp fp)
        by (apply interp_seg_lower; [lra|assumption..]).
      assert (Hreach : (f1 - f0) / (x1 - x0) * (x1 - x0) = f1 - f0)
        by (apply slope_reaches; assumption).
      nra.
    + apply IH; [lra|lra|assumption..].
Qed.

Lemma interp1_mono (xp fp : list R) (x x' : R) :
  x <= x' -> Sorted Rlt xp -> Sorted Rle fp ->
  interp1 xp fp x <= interp1 xp fp x'.
Proof.
  intros Hxx Hxs Hfs. unfold interp1.
  destruct xp as [|x0 xp]; [lra|]. destruct fp as [|f0 fp]; [lra|].
  destruct (Rlt_dec x x0) as [Hlt|Hge];
    destruct (Rlt_dec x' x0) as [Hlt'|Hge']; try lra.
  - apply interp_seg_lower; [lra|assumption..].
  - apply interp_seg_mono; [lra|lra|assumption..].
Qed.

(** At the first data point the interpolant takes the first value. *)
Lemma interp1_first (x0 f0 : R) (xp fp : list R) :
  Sorted Rlt (x0 :: xp) -> interp1 (x0 :: xp) (f0 :: fp) x0 = f0.
Proof.
  intros Hxs. unfold interp1.
  destruct (Rlt_dec x0 x0) as [Hlt|_]; [lra|].
  destruct xp as [|x1 xp]; [reflexivity|].
  destruct fp as [|f1 fp]; [reflexivity|].
  simpl. sorted_heads.
  destruct (Rlt_dec x0 x1) as [_|Hge]; [|lra].
  unfold Rdiv. ring.
Qed.

Lemma last_cons_default (a d : R) (l : list R) : last (a :: l) d = last l a.
Proof.
  revert a d. induction l as [|b l IH]; intros a d; [reflexivity|].
  change (last (a :: b :: l) d) with (last (b :: l) d).
  rewrite (IH b d), (IH b a). reflexivity.
Qed.

Lemma interp_seg_right (x : R) (xp : list R) :
  forall (x0 f0 : R) (fp : list R),
    Forall (fun y => y <= x) xp -> length xp = length fp ->
    interp_seg x x0 f0 xp fp = last fp f0.
Proof.
  induction xp as [|x1 xp IH]; intros x0 f0 fp Hall Hlen.
  - destruct fp; [reflexivity|discriminate].
  - destruct fp as [|f1 fp]; [discriminate|].
    inversion Hall; subst. simpl interp_seg.
    destruct (Rlt_dec x x1) as [Hlt|_]; [lra|].
    rewrite IH by (try assumption; simpl in Hlen; lia).
    symmetry. apply last_cons_default.
Qed.

(** At or right of the last data point the interpolant takes the last
    value. *)
Lemma interp1_last (xp fp : list R) (x d : R) :
  xp <> [] -> Forall (fun y => y <= x) xp -> length xp = length fp ->
  interp1 xp fp x = last fp d.
Proof.
  intros Hne Hall Hlen. unfold interp1.
  destruct xp as [|x0 xp]; [contradiction|].
  destruct fp as [|f0 fp]; [discriminate|].
  inversion Hall; subst.
  destruct (Rlt_dec x x0) as [Hlt|_]; [lra|].
  rewrite interp_seg_right by (try assumption; simpl in Hlen; lia).
  symmetry. apply last_cons_default.
Qed.

Lemma linspace01_length (n : nat) : length (linspace01 n) = n.
Proof.
  destruct n as [|[|k]]; [reflexivity..|].
  unfold linspace01. rewrite length_map, length_seq. reflexivity.
Qed.

Lemma linspace01_grid (k : nat) :
  linspace01 (S (S k)) =
  map (fun i => INR i / INR (S k)) (seq 0 (S (S k))).
Proof. reflexivity. Qed.

Lemma grid_pos (k : nat) : 0 < INR (S k).
Proof. apply lt_0_INR. lia. Qed.

Lemma linspace01_sorted (n : nat) : StronglySorted Rlt (linspace01 n).
Proof.
  destruct n as [|[|k]].
  - constructor.
  - repeat constructor.
  - rewrite linspace01_grid.
    apply StronglySorted_map_in with (R := lt); [|apply StronglySorted_seq].
    intros i j _ _ Hij. pose proof (grid_pos k) as Hpos.
    apply lt_INR in Hij. unfold Rdiv.
    apply Rmult_lt_compat_r; [apply Rinv_0_lt_compat; exact Hpos | exact Hij].
Qed.

Lemma linspace01_hd (n : nat) : hd 0 (linspace01 n) = 0.
Proof.
  destruct n as [|[|k]]; [reflexivity..|].
  rewrite linspace01_grid. simpl hd. unfold Rdiv. simpl INR at 1. ring.
Qed.

Lemma linspace01_last (n : nat) : (2 <= n)%nat -> last (linspace01 n) 0 = 1.
Proof.
  intros Hn. destruct n as [|[|k]]; [lia..|].
  rewrite linspace01_grid, seq_S, map_app.
  cbn [map]. rewrite last_last.
  simpl Nat.add. pose proof (grid_pos k).
  unfold Rdiv. apply Rinv_r. lra.
Qed.

Lemma linspace01_le_1 (n : nat) : Forall (fun x => x <= 1) (linspace01 n).
Proof.
  destruct n as [|[|k]].
  - constructor.
  - repeat constructor. lra.
  - rewrite linspace01_grid. apply Forall_map, Forall_forall.
    intros i Hi. apply in_seq in Hi. pose proof (grid_pos k) as Hpos.
    assert (INR i <= INR (S k)) by (apply le_INR; lia).
    apply Rmult_le_reg_r with (r := INR (S k)); [exact Hpos|].
    unfold Rdiv. rewrite Rmult_assoc, Rinv_l by lra. lra.
Qed.

End NumpyFacts.

(** ** [loglinear_interp] *)

Module LogLinearFacts.

Import Numpy NumpyFacts.

Local Open Scope R_scope.

Lemma loglinear_interp_empty (num_steps : nat) :
  loglinear_interp [] num_steps =
  Raise (ValueError "array of sample points is empty").
Proof. reflexivity. Qed.

Lemma loglinear_interp_nonempty (t_steps : list R) (num_steps : nat) :
  t_steps <> [] ->
  loglinear_interp t_steps num_steps =
  Ok (rev (map exp
             (map (interp1 (linspace01 (length t_steps))
                     (map ln (rev t_steps)))
                (linspace01 num_steps)))).
Proof.
  intros Hne. unfold loglinear_interp, interp.
  rewrite linspace01_length, length_map, length_rev, Nat.eqb_refl.
  destruct t_steps as [|a t]; [contradiction|]. reflexivity.
Qed.

Lemma Rgt_transitive : Relations_1.Transitive Rgt.
Proof. intros x y z Hxy Hyz. unfold Rgt in *. lra. Qed.

Lemma log_values_sorted (t_steps : list R) :
  Sorted Rgt t_steps -> Forall (fun x => 0 < x) t_steps ->
  StronglySorted Rlt (map ln (rev t_steps)).
Proof.
  intros Hs Hpos.
  apply Sorted_StronglySorted in Hs; [|exact Rgt_transitive].
  apply StronglySorted_rev_flip in Hs.
  apply StronglySorted_map_in with (R := fun a b => Rgt b a); [|exact Hs].
  intros a b Ha _ Hab. apply ln_increasing; [|exact Hab].
  rewrite Forall_forall in Hpos. apply Hpos, in_rev, Ha.
Qed.

Lemma exp_monotone (x y : R) : x <= y -> exp x <= exp y.
Proof.
  intros [Hlt|Heq]; [left; apply exp_increasing; exact Hlt|].
  subst. right. reflexivity.
Qed.

Lemma hd_nonempty_default {A : Type} (l : list A) (d d' : A) :
  l <> [] -> hd d l = hd d' l.
Proof. destruct l; [contradiction|reflexivity]. Qed.

Lemma last_nonempty_default {A : Type} (l : list A) (d d' : A) :
  l <> [] -> last l d = last l d'.
Proof.
  induction l as [|a l IH]; [contradiction|]. intros _.
  destruct l as [|b l]; [reflexivity|]. apply IH. discriminate.
Qed.


Lemma last_map_nonempty {A C : Type} (f : A -> C) (l : list A) (d : A) (c : C) :
  l <> [] -> last (map f l) c = f (last l d).
Proof.
  intros Hne. rewrite last_nonempty_default with (d' := f d).
  - apply last_map.
  - destruct l; [contradiction|discriminate].
Qed.

Lemma nonempty_length {A : Type} (l : list A) :
  (1 <= length l)%nat -> l <> [].
Proof. destruct l; simpl; [lia|discriminate]. Qed.

Lemma hd_In_pos (l : list R) :
  l <> [] -> Forall (fun x => 0 < x) l -> 0 < hd 0 l.
Proof. intros Hne Hpos. destruct l; [contradiction|]. inversion Hpos; assumption. Qed.

Lemma last_In_pos (l : list R) :
  l <> [] -> Forall (fun x => 0 < x) l -> 0 < last l 0.
Proof.
  intros Hne Hpos. rewrite <- (rev_involutive l), last_rev.
  apply hd_In_pos.
  - intros Hr. apply Hne. rewrite <- (rev_involutive l), Hr. reflexivity.
  - apply Forall_forall. intros x Hx. rewrite Forall_forall in Hpos.
    apply Hpos, in_rev, Hx.
Qed.

(** On the grid of the old sequence, the interpolant of the logarithms is
    the first logarithm at the left end and the last one at the right
    end. *)
Lemma interp_left_end (t_steps : list R) :
  t_steps <> [] ->
  interp1 (linspace01 (length t_steps)) (map ln (rev t_steps)) 0 =
  ln (last t_steps 0).
Proof.
  intros Hne.
  assert (Hrev : rev t_steps <> []).
  { intros Hr. apply Hne. rewrite <- (rev_involutive t_steps), Hr. reflexivity. }
  pose proof (linspace01_hd (length t_steps)) as Hhd.
  pose proof (linspace01_length (length t_steps)) as Hlen.
  pose proof (StronglySorted_Sorted (linspace01_sorted (length t_steps))) as Hs.
  destruct (linspace01 (length t_steps)) as [|x0 xp].
  - destruct t_steps; [contradiction|discriminate].
  - simpl in Hhd. subst x0.
    rewrite <- (hd_rev 0 t_steps).
    destruct (rev t_steps) as [|r rs]; [contradiction|].
    simpl map. simpl hd. apply interp1_first. exact Hs.
Qed.

Lemma interp_right_end (t_steps : list R) :
  t_steps <> [] ->
  interp1 (linspace01 (length t_steps)) (map ln (rev t_steps)) 1 =
  ln (hd 0 t_steps).
Proof.
  intros Hne.
  assert (Hrev : rev t_steps <> []).
  { intros Hr. apply Hne. rewrite <- (rev_involutive t_steps), Hr. reflexivity. }
  rewrite interp1_last with (d := ln 0).
  - rewrite last_map, last_rev. reflexivity.
  - intros Hx. apply Hne, length_zero_iff_nil.
    rewrite <- (linspace01_length (length t_steps)), Hx. reflexivity.
  - apply linspace01_le_1.
  - rewrite linspace01_length, length_map, length_rev. reflexivity.
Qed.





End LogLinearFacts.

(** ** [MimicMotionSampler] *)

Module SamplerFacts.

Import DiffusersScheduler MimicMotionSampler.

Local Open Scope R_scope.

Lemma slice_last_whole {A : Type} (k : nat) (l : list A) :
  length l = k -> slice_last k l = l.
Proof.
  intros Hlen. unfold slice_last.
  destruct (k =? 0)%nat; [reflexivity|].
  rewrite Hlen, Nat.sub_diag. reflexivity.
Qed.

Lemma set_last_nonempty {A : Type} (v : A) (l : list A) :
  l <> [] -> set_last v l = Ok (removelast l ++ [v]).
Proof. destruct l; [contradiction|reflexivity]. Qed.

Lemma length_set_last {A : Type} (v : A) (l : list A) :
  l <> [] -> length (removelast l ++ [v]) = length l.
Proof.
  intros Hne. destruct (exists_last Hne) as (l' & a & ->).
  rewrite removelast_last, !length_app. reflexivity.
Qed.

Lemma resolve_sigmas_same (table : list R) (steps : nat) :
  (steps + 1 = length table)%nat ->
  resolve_sigmas (Some table) steps = Ok (Some table).
Proof.
  intros Hlen. unfold resolve_sigmas.
  rewrite (proj2 (Nat.eqb_eq _ _) Hlen). reflexivity.
Qed.

(** When the table has another length than [steps + 1] it is resampled
    and its last entry is overwritten with zero. *)
Lemma resolve_sigmas_interp (table : list R) (steps : nat) :
  table <> [] ->
  (steps + 1 <> length table)%nat ->
  exists s,
    resolve_sigmas (Some table) steps = Ok (Some s) /\
    length s = (steps + 1)%nat /\
    last s 1 = 0.
Proof.
  intros Hne Hlen. unfold resolve_sigmas.
  rewrite (proj2 (Nat.eqb_neq _ _) Hlen). simpl negb. cbv iota.
  rewrite (LogLinearFacts.loglinear_interp_nonempty _ Hne).
  set (out := rev _).
  assert (Hout : length out = (steps + 1)%nat).
  { unfold out. rewrite length_rev, !length_map.
    apply NumpyFacts.linspace01_length. }
  assert (Hout' : out <> []).
  { intros Hnil. rewrite Hnil in Hout. simpl in Hout. lia. }
  unfold rbind. rewrite (slice_last_whole out Hout).
  rewrite (set_last_nonempty 0 Hout').
  eexists. split; [reflexivity|]. split.
  - rewrite length_set_last by exact Hout'. exact Hout.
  - apply last_last.
Qed.

Lemma resolve_sigmas_ok (sg : option (list R)) (steps : nat) :
  (forall table, sg = Some table -> table <> []) ->
  exists r, resolve_sigmas sg steps = Ok r.
Proof.
  intros Hwf. destruct sg as [table|]; [|eexists; reflexivity].
  destruct (Nat.eq_dec (steps + 1) (length table)) as [Heq|Hneq].
  - eexists. apply resolve_sigmas_same. exact Heq.
  - destruct (@resolve_sigmas_interp table steps) as (s & Hs & _);
      [apply Hwf; reflexivity | exact Hneq |].
    eexists. exact Hs.
Qed.

Section Process.

Context {B : Backend}.

Lemma pipeline_calls_app (l l' : list event) :
  pipeline_calls (l ++ l') = pipeline_calls l ++ pipeline_calls l'.
Proof. apply flat_map_app. Qed.

Lemma select_scheduler_run (r steps : nat)
  (opt : option scheduler_options) (w : world) :
  select_scheduler r steps opt w =
  (match opt with
   | Some o => resolve_sigmas (sigmas o) steps
   | None => Ok None
   end,
   with_pipe r
     (assign_scheduler
        (match opt with
         | Some o => noise_scheduler o
         | None => scheduler (pipes w r)
         end)
        (pipes w r))
     w).
Proof. destruct opt as [o|]; reflexivity. Qed.

Lemma offload_run (r : nat) (w : world) :
  fst (offload r w) = Ok tt /\
  trace (snd (offload r w)) = trace w ++ [EvSoftEmptyCache; EvGcCollect] /\
  forall r', scheduler (pipes (snd (offload r w)) r') = scheduler (pipes w r').
Proof.
  split; [reflexivity|]. split.
  - cbn. rewrite <- app_assoc. reflexivity.
  - intros r'. cbn.
    destruct (Nat.eqb_spec r' r) as [->|Hr]; [|reflexivity].
    rewrite Nat.eqb_refl. reflexivity.
Qed.

Variables (mimic_pipeline : mimic_bundle) (ref_image pose_images : batch Tensor).
Variables (cfg_min cfg_max : R) (steps seed : nat) (noise_aug_strength : R).
Variables (fps : nat) (keep_model_loaded : bool).
Variables (context_size context_overlap : nat).

(** The run of [process], branch by branch. *)
Lemma sampler_run (opt : option scheduler_options) (w : world) :
  process mimic_pipeline ref_image pose_images cfg_min cfg_max steps seed
    noise_aug_strength fps keep_model_loaded context_size context_overlap
    opt w =
  let r := bundle_pipeline mimic_pipeline in
  let w1 := log EvSoftEmptyCache (log EvUnloadAllModels w) in
  let s :=
    match opt with
    | Some o => noise_scheduler o
    | None => scheduler (pipes w1 r)
    end in
  let w2 := with_pipe r (assign_scheduler s (pipes w1 r)) w1 in
  match
    match opt with
    | Some o => resolve_sigmas (sigmas o) steps
    | None => Ok None
    end
  with
  | Raise e => (Raise e, w2)
  | Ok sg =>
      if (context_size <=? length (frames pose_images))%nat
      then
        let args :=
          call_args (bundle_dtype mimic_pipeline) ref_image pose_images
            cfg_min cfg_max steps seed noise_aug_strength fps context_size
            context_overlap sg in
        let p := pipes w2 r in
        let w3 := log (EvPipeline p args) w2 in
        match run_pipeline p args with
        | Failed tag => (Raise (ExternalError tag), w3)
        | Done fr =>
            (Ok {| samples := fr |},
             if keep_model_loaded then w3 else snd (offload r w3))
        end
      else (Raise (AssertionError assert_message), w2)
  end.
Proof.
  unfold process. unfold bind at 1 2 3. cbn [emit fst snd].
  rewrite select_scheduler_run.
  destruct (match opt with
            | Some o => resolve_sigmas (sigmas o) steps
            | None => Ok None
            end) as [sg|e]; [|reflexivity].
  cbv zeta. unfold bind at 1. unfold assert_.
  destruct (context_size <=? length (frames pose_images))%nat;
    [|reflexivity].
  cbn [ret]. unfold bind at 1 2 3. cbn [get_pipe emit lift fst snd].
  destruct (run_pipeline _ _) as [fr|tag]; [|reflexivity].
  cbn [lift_ext]. unfold bind.
  destruct keep_model_loaded; reflexivity.
Qed.

Lemma trace_after_setup (w : world) (s : Scheduler) (r : nat) :
  pipeline_calls
    (trace
       (with_pipe r
          (assign_scheduler s
             (pipes (log EvSoftEmptyCache (log EvUnloadAllModels w)) r))
          (log EvSoftEmptyCache (log EvUnloadAllModels w)))) =
  pipeline_calls (trace w).
Proof.
  cbn [trace with_pipe log]. rewrite !pipeline_calls_app. cbn.
  rewrite !app_nil_r. reflexivity.
Qed.

(** The scheduler held by the pipeline objects after one run. *)
Lemma process_scheduler_after (opt : option scheduler_options) (w : world) :
  let run :=
    process mimic_pipeline ref_image pose_images cfg_min cfg_max steps seed
      noise_aug_strength fps keep_model_loaded context_size context_overlap
      opt w in
  let r := bundle_pipeline mimic_pipeline in
  let s :=
    match opt with
    | Some o => noise_scheduler o
    | None => scheduler (pipes w r)
    end in
  forall r', scheduler (pipes (snd run) r') =
             if (r' =? r)%nat then s else scheduler (pipes w r').
Proof.
  cbv zeta. rewrite sampler_run. cbv zeta. intros r'.
  set (r := bundle_pipeline mimic_pipeline).
  set (w1 := log EvSoftEmptyCache (log EvUnloadAllModels w)).
  set (s := match opt with
            | Some o => noise_scheduler o
            | None => scheduler (pipes w1 r)
            end).
  set (w2 := with_pipe r (assign_scheduler s (pipes w1 r)) w1).
  assert (Hsched : scheduler (pipes w2 r') =
                   if (r' =? r)%nat then s else scheduler (pipes w r')).
  { cbn. destruct (r' =? r)%nat; reflexivity. }
  destruct (match opt with
            | Some o => resolve_sigmas (sigmas o) steps
            | None => Ok None
            end) as [sg|e]; [|exact Hsched].
  destruct (context_size <=? length (frames pose_images))%nat;
    [|exact Hsched].
  destruct (run_pipeline _ _) as [fr|tag]; [destruct keep_model_loaded|];
    cbn [snd]; try exact Hsched.
  rewrite (proj2 (proj2 (offload_run _ _))). exact Hsched.
Qed.

(** When the sigma table resolves and there are enough pose frames, one run
    logs one pipeline call, made on the pipeline object with the selected
    scheduler and with the resolved table. *)
Lemma process_call_logged (opt : option scheduler_options) (w : world)
  (sg : option (list R)) :
  match opt with
  | Some o => resolve_sigmas (sigmas o) steps
  | None => Ok None
  end = Ok sg ->
  (context_size <= length (frames pose_images))%nat ->
  let run :=
    process mimic_pipeline ref_image pose_images cfg_min cfg_max steps seed
      noise_aug_strength fps keep_model_loaded context_size context_overlap
      opt w in
  exists p,
    scheduler p =
    match opt with
    | Some o => noise_scheduler o
    | None => scheduler (pipes w (bundle_pipeline mimic_pipeline))
    end /\
    pipeline_calls (trace (snd run)) =
    pipeline_calls (trace w) ++
    [(p, call_args (bundle_dtype mimic_pipeline) ref_image pose_images
           cfg_min cfg_max steps seed noise_aug_strength fps context_size
           context_overlap sg)].
Proof.
  intros Hres Hctx. cbv zeta. rewrite sampler_run. cbv zeta.
  rewrite Hres, (proj2 (Nat.leb_le _ _) Hctx).
  set (r := bundle_pipeline mimic_pipeline).
  set (w1 := log EvSoftEmptyCache (log EvUnloadAllModels w)).
  set (s := match opt with
            | Some o => noise_scheduler o
            | None => scheduler (pipes w1 r)
            end).
  set (w2 := with_pipe r (assign_scheduler s (pipes w1 r)) w1).
  set (args := call_args _ _ _ _ _ _ _ _ _ _ _ _).
  exists (pipes w2 r). split.
  { cbn. rewrite Nat.eqb_refl. reflexivity. }
  assert (Hw3 : pipeline_calls (trace (log (EvPipeline (pipes w2 r) args) w2))
                = pipeline_calls (trace w) ++ [(pipes w2 r, args)]).
  { cbn [trace log]. rewrite pipeline_calls_app.
    unfold w2, w1. rewrite trace_after_setup. reflexivity. }
  destruct (run_pipeline (pipes w2 r) args) as [fr|tag];
    [destruct keep_model_loaded|]; cbn [snd]; try exact Hw3.
  rewrite (proj1 (proj2 (offload_run _ _))), pipeline_calls_app, Hw3.
  cbn. apply app_nil_r.
Qed.

(** Otherwise one run logs no pipeline call. *)
Lemma process_call_skipped (opt : option scheduler_options) (w : world) :
  (forall sg,
     match opt with
     | Some o => resolve_sigmas (sigmas o) steps
     | None => Ok None
     end = Ok sg ->
     (length (frames pose_images) < context_size)%nat) ->
  pipeline_calls
    (trace
       (snd (process mimic_pipeline ref_image pose_images cfg_min cfg_max
               steps seed noise_aug_strength fps keep_model_loaded
               context_size context_overlap opt w)))
  = pipeline_calls (trace w).
Proof.
  intros Hskip. rewrite sampler_run. cbv zeta.
  destruct (match opt with
            | Some o => resolve_sigmas (sigmas o) steps
            | None => Ok None
            end) as [sg|e]; [|apply trace_after_setup].
  rewrite (proj2 (Nat.leb_gt _ _) (Hskip sg eq_refl)).
  apply trace_after_setup.
Qed.

(** C5: with a sigma table that is not empty, a context size above the
    number of pose frames makes [process] fail with the assertion and the
    pipeline is not invoked; with at least [context_size] pose frames the
    assertion is not what [process] raises. *)
Theorem context_size_checked_first (opt : option scheduler_options)
  (w : world) :
  (forall o table, opt = Some o -> sigmas o = Some table -> table <> []) ->
  let run :=
    process mimic_pipeline ref_image pose_images cfg_min cfg_max steps seed
      noise_aug_strength fps keep_model_loaded context_size context_overlap
      opt w in
  ((length (frames pose_images) < context_size)%nat ->
   fst run = Raise (AssertionError assert_message) /\
   pipeline_calls (trace (snd run)) = pipeline_calls (trace w)) /\
  ((context_size <= length (frames pose_images))%nat ->
   forall msg, fst run <> Raise (AssertionError msg)).
Proof.
  intros Hwf. cbv zeta. rewrite sampler_run. cbv zeta.
  assert (Hres : exists sg,
             match opt with
             | Some o => resolve_sigmas (sigmas o) steps
             | None => Ok None
             end = Ok sg).
  { destruct opt as [o|]; [|eexists; reflexivity].
    apply resolve_sigmas_ok. intros table Ht.
    apply (Hwf o table); [reflexivity|exact Ht]. }
  destruct Hres as [sg Hsg]. rewrite Hsg. split; intros Hctx.
  - rewrite (proj2 (Nat.leb_gt _ _) Hctx). split; [reflexivity|].
    apply trace_after_setup.
  - rewrite (proj2 (Nat.leb_le _ _) Hctx). intros msg.
    destruct (run_pipeline _ _); cbn [fst]; discriminate.
Qed.

End Process.

Section Persistence.

Context {B : Backend}.

(** C9: a call with an optional scheduler leaves that scheduler in the
    shared pipeline object, whatever the outcome of the call; a later call
    on the same bundle without an override, from any world in which the
    object still holds it, hands the pipeline that scheduler and leaves it
    in place. *)
Theorem scheduler_override_persists (mimic_pipeline : mimic_bundle)
  (ref_image pose_images : batch Tensor) (cfg_min cfg_max : R)
  (steps seed : nat) (noise_aug_strength : R) (fps : nat)
  (keep_model_loaded : bool) (context_size context_overlap : nat)
  (o : scheduler_options) (w : world) :
  let r := bundle_pipeline mimic_pipeline in
  let w1 :=
    snd (process mimic_pipeline ref_image pose_images cfg_min cfg_max steps
           seed noise_aug_strength fps keep_model_loaded context_size
           context_overlap (Some o) w) in
  scheduler (pipes w1 r) = noise_scheduler o /\
  forall (w' : world) (ref_image' pose_images' : batch Tensor)
    (cfg_min' cfg_max' : R) (steps' seed' : nat) (noise_aug_strength' : R)
    (fps' : nat) (keep_model_loaded' : bool)
    (context_size' context_overlap' : nat),
    scheduler (pipes w' r) = noise_scheduler o ->
    let run' :=
      process mimic_pipeline ref_image' pose_images' cfg_min' cfg_max'
        steps' seed' noise_aug_strength' fps' keep_model_loaded'
        context_size' context_overlap' None w' in
    scheduler (pipes (snd run') r) = noise_scheduler o /\
    exists calls,
      pipeline_calls (trace (snd run')) = pipeline_calls (trace w') ++ calls /\
      Forall (fun c => scheduler (fst c) = noise_scheduler o) calls.
Proof.
  cbv zeta. split.
  - rewrite (process_scheduler_after mimic_pipeline ref_image pose_images
               cfg_min cfg_max steps seed noise_aug_strength fps
               keep_model_loaded context_size context_overlap (Some o) w).
    rewrite Nat.eqb_refl. reflexivity.
  - intros w' ref_image' pose_images' cfg_min' cfg_max' steps' seed'
      noise_aug_strength' fps' keep_model_loaded' context_size'
      context_overlap' Hheld.
    split.
    + rewrite (process_scheduler_after mimic_pipeline ref_image' pose_images'
                 cfg_min' cfg_max' steps' seed' noise_aug_strength' fps'
                 keep_model_loaded' context_size' context_overlap' None w').
      rewrite Nat.eqb_refl. exact Hheld.
    + destruct (Nat.leb_spec context_size' (length (frames pose_images')))
        as [Hle|Hgt].
      * destruct (@process_call_logged _ mimic_pipeline ref_image'
                    pose_images' cfg_min' cfg_max' steps' seed'
                    noise_aug_strength' fps' keep_model_loaded' context_size'
                    context_overlap' None w' None eq_refl Hle)
          as (p & Hp & Hcall).
        eexists. split; [exact Hcall|].
        constructor; [|constructor]. cbn [fst]. rewrite Hp. exact Hheld.
      * exists []. rewrite app_nil_r. split; [|constructor].
        apply process_call_skipped. intros sg _. exact Hgt.
Qed.

End Persistence.

Lemma scheduler_override_persists_witness :
  let o :=
    loadmodel (B := Demo.backend) AnimateLCM_SVD 0.002 700 false in
  let w1 :=
    snd (process (B := Demo.backend) Demo.bundle0 (Demo.images [1%nat])
           (Demo.images [1%nat; 1%nat]) 2 2 25 0 0 15 true 2 1
           (Some o) Demo.world0) in
  let run' :=
    process (B := Demo.backend) Demo.bundle0 (Demo.images [1%nat])
      (Demo.images [1%nat; 1%nat]) 2 2 25 0 0 15 true 2 1 None w1 in
  scheduler (pipes (snd run') 0) = 2%nat /\
  exists calls,
    pipeline_calls (trace (snd run')) = pipeline_calls (trace w1) ++ calls /\
    Forall (fun c => scheduler (fst c) = 2%nat) calls.
Proof.
  intros o w1 run'.
  destruct (scheduler_override_persists (B := Demo.backend) Demo.bundle0
              (Demo.images [1%nat]) (Demo.images [1%nat; 1%nat])
              2 2 25 0 0 15 true 2 1 o Demo.world0) as [Hheld Hlater].
  apply Hlater. exact Hheld.
Defined.

Lemma context_size_checked_first_witness :
  let opt :=
    Some (loadmodel (B := Demo.backend) EulerDiscreteScheduler 0.002 700
            true) in
  let short :=
    process (B := Demo.backend) Demo.bundle0 (Demo.images [1%nat])
      (Demo.images [1%nat; 1%nat]) 2 2 25 0 0 15 true 3 1 opt
      Demo.world0 in
  let enough :=
    process (B := Demo.backend) Demo.bundle0 (Demo.images [1%nat])
      (Demo.images [1%nat; 1%nat]) 2 2 25 0 0 15 true 2 1 opt
      Demo.world0 in
  (fst short = Raise (AssertionError assert_message) /\
   pipeline_calls (trace (snd short)) = []) /\
  forall msg, fst enough <> Raise (AssertionError msg).
Proof.
  intros opt short enough. split.
  - apply (@context_size_checked_first Demo.backend Demo.bundle0
             (Demo.images [1%nat]) (Demo.images [1%nat; 1%nat])
             2 2 25 0 0 15 true 3 1 opt Demo.world0).
    + intros o table Ho Hs. injection Ho as <-. injection Hs as <-.
      discriminate.
    + simpl. lia.
  - apply (@context_size_checked_first Demo.backend Demo.bundle0
             (Demo.images [1%nat]) (Demo.images [1%nat; 1%nat])
             2 2 25 0 0 15 true 2 1 opt Demo.world0).
    + intros o table Ho Hs. injection Ho as <-. injection Hs as <-.
      discriminate.
    + simpl. lia.
Defined.

(** C1: a run at the failing input.  With ten steps the table of
    align-your-steps already has the [10 + 1] entries asked for, so the
    guard of line 269 is false and neither the interpolation nor the
    assignment [sigmas[-1] = 0] under it runs: the pipeline is called with
    the table as it is, and the final sigma it is handed is 0.002, not
    zero. *)
Lemma align_your_steps_ten_steps :
  let run :=
    process (B := Demo.backend) Demo.bundle0 (Demo.images [1%nat])
      (Demo.images [1%nat; 1%nat]) 2 2 10 0 0 15 true 2 1
      (Some (loadmodel EulerDiscreteScheduler 0.002 700 true))
      Demo.world0 in
  exists p s,
    pipeline_calls (trace (snd run)) =
    [(p, call_args (B := Demo.backend) fp16 (Demo.images [1%nat]) (Demo.images [1%nat; 1%nat])
           2 2 10 0 0 15 2 1 (Some s))] /\
    s = align_your_steps_sigmas /\
    last s 1 = 0.002 /\
    last s 1 <> 0.
Proof.
  cbv zeta. rewrite sampler_run. cbv zeta. cbn [sigmas loadmodel].
  rewrite resolve_sigmas_same by reflexivity.
  eexists. exists align_your_steps_sigmas.
  split; [reflexivity|]. split; [reflexivity|].
  cbn [last align_your_steps_sigmas].
  split; [reflexivity|lra].
Qed.

End SamplerFacts.

(** ** [MimicMotionDecode] *)

Module DecodeFacts.

Import MimicMotionDecode.

Local Open Scope nat_scope.

Section Process.

Context {B : Backend}.

Lemma decode_calls_app (l l' : list event) :
  decode_calls (l ++ l') = decode_calls l ++ decode_calls l'.
Proof. apply flat_map_app. Qed.

Lemma length_tl {A : Type} (l : list A) : length (tl l) = length l - 1.
Proof. destruct l; simpl; lia. Qed.

Variables (mimic_pipeline : mimic_bundle) (samples : MimicMotionSampler.latent).
Variable decode_chunk_size : nat.

(** The run of [process], branch by branch. *)
Lemma decode_run (w : world) :
  process mimic_pipeline samples decode_chunk_size w =
  let p := pipes w (bundle_pipeline mimic_pipeline) in
  let s := MimicMotionSampler.samples samples in
  let n := dim0 s in
  let w0 := log EvSoftEmptyCache w in
  let finish v :=
    map cpu_float (map chw_to_hwc (tl (map squeeze1 (tensor2vid v)))) in
  match decode_latents p s n decode_chunk_size with
  | Done v => (Ok (finish v), log (EvDecode n decode_chunk_size) w0)
  | Failed _ =>
      let w1 := log (EvDecode n 1) (log (EvDecode n decode_chunk_size) w0) in
      match decode_latents p s n 1 with
      | Done v => (Ok (finish v), w1)
      | Failed tag => (Raise (ExternalError tag), w1)
      end
  end.
Proof.
  unfold process, try_except, decode, bind, emit, get_pipe, lift, ret.
  cbn [fst snd pipes log]. cbv zeta.
  destruct (decode_latents _ _ _ decode_chunk_size) as [v|tag];
    cbn [lift_ext]; [reflexivity|].
  destruct (decode_latents _ _ _ 1) as [v|tag']; reflexivity.
Qed.

(** C4: when the decode call with the requested chunk size fails, the
    decode is called once more, with chunk size 1, and a failure of that
    call is the failure of [process]; when the first call succeeds there is
    no second call; whenever [process] returns frames, they are the decoded
    frames without the first one. *)
Theorem decode_retried_once (w : world) :
  let p := pipes w (bundle_pipeline mimic_pipeline) in
  let s := MimicMotionSampler.samples samples in
  let n := dim0 s in
  let run := process mimic_pipeline samples decode_chunk_size w in
  (forall tag, decode_latents p s n decode_chunk_size = Failed tag ->
     decode_calls (trace (snd run)) =
     decode_calls (trace w) ++ [(n, decode_chunk_size); (n, 1)] /\
     forall tag', decode_latents p s n 1 = Failed tag' ->
                  fst run = Raise (ExternalError tag')) /\
  (forall v, decode_latents p s n decode_chunk_size = Done v ->
     decode_calls (trace (snd run)) =
     decode_calls (trace w) ++ [(n, decode_chunk_size)]) /\
  (forall out, fst run = Ok out ->
     exists v,
       (decode_latents p s n decode_chunk_size = Done v \/
        (exists tag, decode_latents p s n decode_chunk_size = Failed tag) /\
        decode_latents p s n 1 = Done v) /\
       out = map cpu_float (map chw_to_hwc (map squeeze1 (tl (tensor2vid v)))) /\
       length out = length (tensor2vid v) - 1).
Proof.
  cbv zeta. rewrite decode_run. cbv zeta.
  set (p := pipes w (bundle_pipeline mimic_pipeline)).
  set (s := MimicMotionSampler.samples samples).
  set (n := dim0 s).
  assert (Hfinish : forall v,
    map cpu_float (map chw_to_hwc (tl (map squeeze1 (tensor2vid v)))) =
    map cpu_float (map chw_to_hwc (map squeeze1 (tl (tensor2vid v)))) /\
    length (map cpu_float (map chw_to_hwc (tl (map squeeze1 (tensor2vid v)))))
    = length (tensor2vid v) - 1).
  { intros v. split.
    - destruct (tensor2vid v); reflexivity.
    - rewrite !length_map, length_tl, length_map. reflexivity. }
  split; [|split].
  - intros tag Hfail. rewrite Hfail. split.
    + destruct (decode_latents p s n 1); cbn [snd trace log];
        rewrite !decode_calls_app; cbn; rewrite app_nil_r, <- app_assoc;
        reflexivity.
    + intros tag' Hfail'. rewrite Hfail'. reflexivity.
  - intros v Hok. rewrite Hok. cbn [snd trace log].
    rewrite !decode_calls_app. cbn. rewrite app_nil_r. reflexivity.
  - intros out Hout.
    destruct (decode_latents p s n decode_chunk_size) as [v|tag] eqn:Hfirst.
    + cbn [fst] in Hout. injection Hout as <-. exists v.
      destruct (Hfinish v) as [Heq Hlen].
      split; [left; reflexivity|]. split; [exact Heq|exact Hlen].
    + destruct (decode_latents p s n 1) as [v|tag'] eqn:Hsecond;
        cbn [fst] in Hout; [|discriminate].
      injection Hout as <-. exists v.
      destruct (Hfinish v) as [Heq Hlen].
      split; [right; split; [exists tag; reflexivity|reflexivity]|].
      split; [exact Heq|exact Hlen].
Qed.

End Process.

Lemma decode_retried_once_witness :
  let run :=
    process (B := Demo.backend) Demo.bundle0 Demo.three_frames 4
      Demo.world0 in
  decode_calls (trace (snd run)) = [(3, 4); (3, 1)] /\
  fst run = Ok [1; 2] /\
  length [1; 2] = length (tensor2vid (Backend := Demo.backend) 3) - 1.
Proof.
  intros run.
  destruct (@decode_retried_once Demo.backend Demo.bundle0
              Demo.three_frames 4 Demo.world0)
    as (Hretry & _ & Hout).
  split; [apply (Hretry 2); reflexivity|].
  split; [reflexivity|].
  destruct (Hout [1; 2] eq_refl) as (v & Hv & _ & Hlen).
  assert (Hv3 : v = 3).
  { destruct Hv as [Hv|[_ Hv]]; [discriminate Hv|].
    injection Hv as <-. reflexivity. }
  subst v. exact Hlen.
Defined.

End DecodeFacts.

(** ** [MimicMotionGetPoses] *)

Module GetPosesFacts.

Import MimicMotionGetPoses.

Local Open Scope nat_scope.

(** *** Results that are not a failed assertion *)

Lemma rbind_no_assertion {A C : Type} (r : result A) (k : A -> result C) :
  is_assertion r = false ->
  (forall a, is_assertion (k a) = false) ->
  is_assertion (rbind r k) = false.
Proof. intros Hr Hk. destruct r as [a|e]; [apply Hk|exact Hr]. Qed.

Lemma lift_ext_no_assertion {A : Type} (x : ext A) :
  is_assertion (lift_ext x) = false.
Proof. destruct x; reflexivity. Qed.

Lemma map_result_no_assertion {A C : Type} (f : A -> result C) (l : list A) :
  (forall a, is_assertion (f a) = false) ->
  is_assertion (map_result f l) = false.
Proof.
  intros Hf. induction l as [|a l IH]; [reflexivity|]. simpl.
  apply rbind_no_assertion; [apply Hf|]. intros c.
  apply rbind_no_assertion; [exact IH|]. reflexivity.
Qed.

Lemma take_rows_no_assertion {A : Type} (ids : list nat) (a : list A) :
  is_assertion (take_rows ids a) = false.
Proof.
  induction ids as [|i ids IH]; [reflexivity|]. simpl.
  destruct (nth_error a i); [|reflexivity].
  apply rbind_no_assertion; [exact IH|]. reflexivity.
Qed.

Lemma select_ref_keypoints_no_assertion (sc : list (list R)) (ids : list nat) :
  is_assertion (select_ref_keypoints sc ids) = false.
Proof.
  induction ids as [|i ids IH]; [reflexivity|]. simpl.
  apply rbind_no_assertion.
  - unfold keep_ref_keypoint. destruct sc as [|row0 sc]; [reflexivity|].
    destruct (nth_error row0 i); reflexivity.
  - intros keep. apply rbind_no_assertion; [exact IH|]. reflexivity.
Qed.

Lemma stack_no_assertion {A : Type} (l : list A) :
  is_assertion (stack l) = false.
Proof. destruct l; reflexivity. Qed.

Lemma torch_stack_no_assertion {A : Type} (l : list A) :
  is_assertion (torch_stack l) = false.
Proof. destruct l; reflexivity. Qed.

Lemma detected_bodies_no_assertion (ids : list nat) (poses : list pose_t) :
  is_assertion (detected_bodies ids poses) = false.
Proof.
  unfold detected_bodies.
  apply rbind_no_assertion; [apply stack_no_assertion|]. intros stacked.
  apply map_result_no_assertion. intros a. apply take_rows_no_assertion.
Qed.

(** *** Lists of results *)

Lemma map_result_Forall2 {A C : Type} (f : A -> result C) (l : list A)
  (l' : list C) :
  map_result f l = Ok l' <-> Forall2 (fun a c => f a = Ok c) l l'.
Proof.
  revert l'. induction l as [|a l IH]; intros l'; simpl.
  - split.
    + intros Heq. injection Heq as <-. constructor.
    + intros Hall. inversion Hall. reflexivity.
  - split.
    + intros Heq. destruct (f a) as [c|e] eqn:Hfa; [|discriminate].
      simpl in Heq. destruct (map_result f l) as [cs|e]; [|discriminate].
      simpl in Heq. injection Heq as <-.
      constructor; [exact Hfa|apply IH; reflexivity].
    + intros Hall. inversion Hall as [|a' c l0 cs Hfa Hrest]; subst.
      rewrite Hfa. simpl. rewrite (proj2 (IH cs) Hrest). reflexivity.
Qed.

Lemma Forall2_map_left {A C D : Type} (f : A -> C) (P : C -> D -> Prop)
  (l : list A) (l' : list D) :
  Forall2 P (map f l) l' <-> Forall2 (fun a d => P (f a) d) l l'.
Proof.
  revert l'. induction l as [|a l IH]; intros l'; simpl.
  - split; intros Hall; inversion Hall; constructor.
  - split; intros Hall; inversion Hall; subst; constructor;
      try assumption; apply IH; assumption.
Qed.

Lemma filter_idempotent {A : Type} (f : A -> bool) (l : list A) :
  filter f (filter f l) = filter f l.
Proof.
  induction l as [|a l IH]; [reflexivity|]. simpl.
  destruct (f a) eqn:Hfa; [|exact IH]. simpl. rewrite Hfa, IH. reflexivity.
Qed.

(** The rows handed to the fit: one entry for each frame with 18 keypoints,
    in order, made of its keypoints at the reference indices. *)
Lemma detected_bodies_rows (ids : list nat) (poses : list pose_t)
  (db : list (list point)) :
  detected_bodies ids poses = Ok db <->
  filter has_18_keypoints poses <> [] /\
  Forall2 (fun p rows => take_rows ids (candidate (bodies p)) = Ok rows)
    (filter has_18_keypoints poses) db.
Proof.
  unfold detected_bodies.
  rewrite <- Forall2_map_left
    with (f := fun p => candidate (bodies p))
         (P := fun c rows => take_rows ids c = Ok rows).
  rewrite <- map_result_Forall2.
  destruct (filter has_18_keypoints poses) as [|p ps]; simpl.
  - split; [discriminate|]. intros [Hne _]. contradiction.
  - split; [intros Heq; split; [discriminate|exact Heq]|].
    intros [_ Heq]. exact Heq.
Qed.

Lemma detected_bodies_filter (ids : list nat) (poses : list pose_t) :
  detected_bodies ids (filter has_18_keypoints poses) =
  detected_bodies ids poses.
Proof. unfold detected_bodies. rewrite filter_idempotent. reflexivity. Qed.

Lemma take_rows_length {A : Type} (ids : list nat) (a rows : list A) :
  take_rows ids a = Ok rows -> length rows = length ids.
Proof.
  revert rows. induction ids as [|i ids IH]; intros rows; simpl.
  - intros Heq. injection Heq as <-. reflexivity.
  - destruct (nth_error a i); [|discriminate].
    destruct (take_rows ids a) as [rs|e]; [|discriminate].
    simpl. intros Heq. injection Heq as <-. simpl. f_equal.
    apply IH. reflexivity.
Qed.

(** The rescale of a pose, coordinate by coordinate. *)
Lemma rescale_pose_coordinates (include_body include_hand include_face : bool)
  (a b : point) (p : pose_t) :
  rescale_pose include_body include_hand include_face a b p =
  {| bodies :=
       {| candidate :=
            if include_body
            then map (fun k : point =>
                        (fst k * fst a + fst b, snd k * snd a + snd b)%R)
                   (candidate (bodies p))
            else candidate (bodies p);
          subset := subset (bodies p);
          score := score (bodies p) |};
     hands :=
       if include_face
       then map (map (fun k : point =>
                        (fst k * fst a + fst b, snd k * snd a + snd b)%R))
              (hands p)
       else hands p;
     hands_score := hands_score p;
     faces :=
       if include_hand
       then map (map (fun k : point =>
                        (fst k * fst a + fst b, snd k * snd a + snd b)%R))
              (faces p)
       else faces p;
     faces_score := faces_score p |}.
Proof.
  destruct p as [[c s sc] h hs f fs].
  destruct include_body, include_hand, include_face; reflexivity.
Qed.

Lemma tile_concat_repeat {A : Type} (v : list A) (k : nat) :
  tile v k = concat (repeat v k).
Proof.
  induction k as [|k IH]; [reflexivity|]. simpl. rewrite IH. reflexivity.
Qed.

(** The fit behind the rescale parameters: the vertical scale and offset
    are the slope and the intercept that [np.polyfit] returns. *)
Lemma rescale_params_fit {B : Backend} (ref_body : list point)
  (db : list (list point)) (fh fw h w' : nat) (a b : point) :
  rescale_params ref_body db fh fw h w' = Ok (a, b) ->
  polyfit1 (flat_map (map snd) db)
    (concat (repeat (map snd ref_body) (length db))) = Done (snd a, snd b).
Proof.
  unfold rescale_params, fit_x, fit_y. rewrite tile_concat_repeat.
  destruct (polyfit1 _ _) as [[ay by_]|tag]; [|discriminate].
  cbn [lift_ext rbind fst snd].
  destruct (aspect_ratio _ _ _ _); [|discriminate].
  cbn [rbind]. intros Heq. injection Heq as <- <-. reflexivity.
Qed.

Section Process.

Context {B : Backend}.

Lemma fst_bind {A C : Type} (m : M A) (k : A -> M C) (w : world) :
  fst (bind m k w) =
  match fst (m w) with
  | Ok a => fst (k a (snd (m w)))
  | Raise e => Raise e
  end.
Proof. unfold bind. destruct (m w) as [[a|e] w']; reflexivity. Qed.

Lemma fst_bind_lift {A C : Type} (r : result A) (k : A -> M C) (w : world) :
  fst (bind (lift r) k w) =
  match r with
  | Ok a => fst (k a w)
  | Raise e => Raise e
  end.
Proof. rewrite fst_bind. reflexivity. Qed.

Lemma for_each_detect_result (imgs : list Tensor) (w : world) :
  fst (for_each detect imgs w) =
  map_result (fun img => lift_ext (dwprocessor img)) imgs.
Proof.
  revert w. induction imgs as [|img imgs IH]; intros w; [reflexivity|].
  cbn [for_each map_result]. unfold bind at 1. unfold detect at 1.
  unfold bind at 1. cbn [emit lift fst snd].
  destruct (dwprocessor img) as [p|tag]; cbn [lift_ext rbind]; [|reflexivity].
  unfold bind at 1. rewrite <- (IH (log (EvDetect img) w)).
  destruct (for_each detect imgs (log (EvDetect img) w)) as [[ps|e] w'];
    reflexivity.
Qed.

Lemma detection_Forall2 (imgs : list Tensor) (detected : list pose_t) :
  map_result (fun img => lift_ext (dwprocessor img)) (map times255 imgs)
  = Ok detected <->
  Forall2 (fun img p => dwprocessor (times255 img) = Done p) imgs detected.
Proof.
  rewrite map_result_Forall2. revert detected.
  induction imgs as [|img imgs IH]; intros detected; simpl.
  - split; intros Hall; inversion Hall; constructor.
  - split; intros Hall; inversion Hall as [|x p l ps Hx Hrest]; subst;
      constructor; try (apply IH; exact Hrest).
    + destruct (dwprocessor (times255 img)); [|discriminate].
      injection Hx as <-. reflexivity.
    + rewrite Hx. reflexivity.
Qed.

Variables (ref_image pose_images : batch Tensor).
Variables (include_body include_hand include_face : bool).

(** The image of a pose, as it is in the output tensor. *)
Local Notation "'render' p" :=
  (cpu_float
     (chw_to_hwc
        (div255
           (as_tensor
              (draw_pose p (height ref_image) (width ref_image)
                 include_body include_hand include_face)))))
  (at level 10, p at level 9, only parsing).

Local Notation "'rescaled' ab p" :=
  (rescale_pose include_body include_hand include_face (fst ab) (snd ab) p)
  (at level 10, ab at level 9, p at level 9, only parsing).

(** The pose [p] with the scale [a] and the offset [b] applied, axis by
    axis, to the keypoints that the loop of lines 434-440 rescales, every
    coordinate written out. *)
Local Notation "'moved' a b p" :=
  {| bodies :=
       {| candidate :=
            if include_body
            then map (fun k : point =>
                        (fst k * fst a + fst b, snd k * snd a + snd b)%R)
                   (candidate (bodies p))
            else candidate (bodies p);
          subset := subset (bodies p);
          score := score (bodies p) |};
     hands :=
       if include_face
       then map (map (fun k : point =>
                        (fst k * fst a + fst b, snd k * snd a + snd b)%R))
              (hands p)
       else hands p;
     hands_score := hands_score p;
     faces :=
       if include_hand
       then map (map (fun k : point =>
                        (fst k * fst a + fst b, snd k * snd a + snd b)%R))
              (faces p)
       else faces p;
     faces_score := faces_score p |}
  (at level 10, a at level 9, b at level 9, p at level 9, only parsing).

(** The result of the body of [process], without the log. *)
Lemma process_body_result (w : world) :
  fst (process_body ref_image pose_images include_body include_hand
         include_face w) =
  (let? ref_pose :=
     lift_ext (dwprocessor (times255 (squeeze0 ref_image))) in
   let? ids :=
     select_ref_keypoints (score (bodies ref_pose)) ref_keypoint_candidates in
   let? ref_body := take_rows ids (candidate (bodies ref_pose)) in
   let? _ := unpack_shape ref_image in
   let? detected :=
     map_result (fun i => lift_ext (dwprocessor i))
       (map times255 (frames pose_images)) in
   let? db := detected_bodies ids detected in
   let? frame_shape := first_frame_shape pose_images in
   let? ab :=
     rescale_params ref_body db (fst frame_shape) (snd frame_shape)
       (height ref_image) (width ref_image) in
   let? _ := torch_stack detected in
   let o1 := render ref_pose :: map (fun p => render (rescaled ab p)) detected in
   Ok (o1, tl o1))%result.
Proof.
  unfold process_body. cbv zeta.
  rewrite fst_bind. unfold detect at 1 2. rewrite fst_bind.
  cbn [emit lift fst snd].
  destruct (dwprocessor (times255 (squeeze0 ref_image))) as [ref_pose|tag];
    cbn [lift_ext rbind]; [|reflexivity].
  rewrite fst_bind_lift.
  destruct (select_ref_keypoints _ _) as [ids|e]; [|reflexivity].
  cbn [rbind]. rewrite fst_bind_lift.
  destruct (take_rows ids _) as [ref_body|e]; [|reflexivity].
  cbn [rbind]. rewrite fst_bind_lift. unfold unpack_shape.
  destruct (frames ref_image) as [|img [|img' l]]; [reflexivity| |reflexivity].
  cbn [rbind fst snd]. rewrite fst_bind, for_each_detect_result.
  destruct (map_result _ _) as [detected|e]; [|reflexivity].
  cbn [rbind]. rewrite fst_bind_lift.
  destruct (detected_bodies ids detected) as [db|e]; [|reflexivity].
  cbn [rbind]. rewrite fst_bind_lift.
  destruct (first_frame_shape pose_images) as [frame_shape|e]; [|reflexivity].
  cbn [rbind]. rewrite fst_bind_lift.
  destruct (rescale_params _ _ _ _ _ _) as [ab|e]; [|reflexivity].
  cbn [rbind]. rewrite fst_bind_lift.
  destruct detected as [|p0 detected]; [reflexivity|].
  cbn [map torch_stack ret fst rbind]. rewrite !map_map. reflexivity.
Qed.

Lemma ensure_model_run (file : string) (w : world) :
  ensure_model file w =
  (Ok tt, if files w file then w else with_file file (log (EvDownload file) w)).
Proof.
  unfold ensure_model, bind, path_exists. cbn [fst snd].
  destruct (files w file); reflexivity.
Qed.

(** The run of [process]: the assertion, then the models, then the body. *)
Lemma get_poses_run (w : world) :
  process ref_image pose_images include_body include_hand include_face w =
  if same_resolution ref_image pose_images
  then
    process_body ref_image pose_images include_body include_hand include_face
      (log EvLoadDetector
         (snd (ensure_model (path_join model_base_path dw_pose_model)
                 (snd (ensure_model (path_join model_base_path yolo_model)
                         w)))))
  else (Raise (AssertionError assert_message), w).
Proof.
  unfold process, assert_. unfold bind at 1.
  destruct (same_resolution ref_image pose_images); [|reflexivity].
  cbn [ret]. cbv zeta. unfold bind.
  rewrite (ensure_model_run (path_join model_base_path yolo_model) w).
  cbn [fst snd]. rewrite ensure_model_run. reflexivity.
Qed.

Lemma same_resolution_spec :
  same_resolution ref_image pose_images = true <->
  height ref_image = height pose_images /\
  width ref_image = width pose_images.
Proof.
  unfold same_resolution, shape. cbn [skipn firstn].
  destruct (list_eq_dec Nat.eq_dec _ _) as [Heq|Hneq]; split.
  - intros _. injection Heq as Hh Hw. split; assumption.
  - reflexivity.
  - discriminate.
  - intros [Hh Hw]. exfalso. apply Hneq. rewrite Hh, Hw. reflexivity.
Qed.

Lemma unpack_shape_no_assertion :
  is_assertion (unpack_shape ref_image) = false.
Proof.
  unfold unpack_shape.
  destruct (frames ref_image) as [|img [|img' l]]; reflexivity.
Qed.

Lemma rescale_params_no_assertion (ref_body : list point)
  (db : list (list point)) (fh fw h w' : nat) :
  is_assertion (rescale_params ref_body db fh fw h w') = false.
Proof.
  unfold rescale_params.
  apply rbind_no_assertion; [apply lift_ext_no_assertion|]. intros fit.
  apply rbind_no_assertion; [|reflexivity].
  unfold aspect_ratio. destruct (fw =? 0); [reflexivity|].
  destruct (h =? 0); reflexivity.
Qed.

Lemma process_body_no_assertion (w : world) :
  is_assertion
    (fst (process_body ref_image pose_images include_body include_hand
            include_face w)) = false.
Proof.
  rewrite process_body_result.
  apply rbind_no_assertion; [apply lift_ext_no_assertion|]. intros ref_pose.
  apply rbind_no_assertion; [apply select_ref_keypoints_no_assertion|].
  intros ids.
  apply rbind_no_assertion; [apply take_rows_no_assertion|]. intros ref_body.
  apply rbind_no_assertion; [apply unpack_shape_no_assertion|]. intros hw.
  apply rbind_no_assertion.
  { apply map_result_no_assertion. intros i. apply lift_ext_no_assertion. }
  intros detected.
  apply rbind_no_assertion; [apply detected_bodies_no_assertion|]. intros db.
  apply rbind_no_assertion.
  { unfold first_frame_shape. destruct (frames pose_images); reflexivity. }
  intros frame_shape.
  apply rbind_no_assertion; [apply rescale_params_no_assertion|]. intros ab.
  apply rbind_no_assertion; [apply torch_stack_no_assertion|]. reflexivity.
Qed.

(** C8: when the reference image and the pose images differ in height or
    width, [process] fails with the assertion and leaves the world as it
    was: no model was fetched, no detector was loaded or run; when the two
    resolutions agree, the assertion is not what [process] raises. *)
Theorem resolution_checked_first (w : world) :
  let run :=
    process ref_image pose_images include_body include_hand include_face w in
  ((height ref_image, width ref_image) <>
   (height pose_images, width pose_images) ->
   run = (Raise (AssertionError assert_message), w)) /\
  ((height ref_image, width ref_image) =
   (height pose_images, width pose_images) ->
   is_assertion (fst run) = false).
Proof.
  cbv zeta. rewrite get_poses_run. split; intros Hres.
  - destruct (same_resolution ref_image pose_images) eqn:Hsame;
      [|reflexivity].
    exfalso. apply Hres. apply same_resolution_spec in Hsame.
    destruct Hsame as [-> ->]. reflexivity.
  - injection Hres as Hh Hw.
    rewrite (proj2 same_resolution_spec (conj Hh Hw)).
    apply process_body_no_assertion.
Qed.

(** When [process] returns its two outputs, and what they are then. *)
Lemma process_ok_iff (w : world) (o1 o2 : list Tensor) :
  fst (process ref_image pose_images include_body include_hand include_face
         w) = Ok (o1, o2) <->
  same_resolution ref_image pose_images = true /\
  exists img ref_pose ids ref_body detected db ab,
    frames ref_image = [img] /\
    dwprocessor (times255 img) = Done ref_pose /\
    select_ref_keypoints (score (bodies ref_pose)) ref_keypoint_candidates
    = Ok ids /\
    take_rows ids (candidate (bodies ref_pose)) = Ok ref_body /\
    Forall2 (fun i p => dwprocessor (times255 i) = Done p)
      (frames pose_images) detected /\
    detected_bodies ids detected = Ok db /\
    rescale_params ref_body db (height pose_images) (width pose_images)
      (height ref_image) (width ref_image) = Ok ab /\
    o1 = render ref_pose :: map (fun p => render (rescaled ab p)) detected /\
    o2 = map (fun p => render (rescaled ab p)) detected.
Proof.
  rewrite get_poses_run. split.
  - destruct (same_resolution ref_image pose_images); [|discriminate].
    rewrite process_body_result.
    destruct (dwprocessor (times255 (squeeze0 ref_image)))
      as [ref_pose|tag] eqn:Hrp; [|discriminate].
    cbn [lift_ext rbind].
    destruct (select_ref_keypoints _ _) as [ids|e] eqn:Hids; [|discriminate].
    cbn [rbind].
    destruct (take_rows ids _) as [ref_body|e] eqn:Hbody; [|discriminate].
    cbn [rbind]. unfold unpack_shape. unfold squeeze0 in Hrp.
    destruct (frames ref_image) as [|img [|img' l]] eqn:Href;
      try discriminate.
    cbn [rbind].
    destruct (map_result _ _) as [detected|e] eqn:Hdet; [|discriminate].
    cbn [rbind]. apply detection_Forall2 in Hdet.
    destruct (detected_bodies ids detected) as [db|e] eqn:Hdb; [|discriminate].
    cbn [rbind]. unfold first_frame_shape.
    destruct (frames pose_images) as [|f0 fs] eqn:Hposes; [discriminate|].
    cbn [rbind fst snd].
    destruct (rescale_params _ _ _ _ _ _) as [ab|e] eqn:Hab; [|discriminate].
    cbn [rbind].
    destruct (torch_stack detected) as [st|e]; [|discriminate].
    cbn [rbind tl]. intros Heq. injection Heq as <- <-.
    split; [reflexivity|].
    exists img, ref_pose, ids, ref_body, detected, db, ab.
    repeat split; assumption.
  - intros (Hres & img & ref_pose & ids & ref_body & detected & db & ab
            & Href & Hrp & Hids & Hbody & Hdet & Hdb & Hab & -> & ->).
    rewrite Hres, process_body_result. unfold squeeze0, unpack_shape.
    rewrite Href, Hrp. cbn [lift_ext rbind].
    rewrite Hids. cbn [rbind]. rewrite Hbody. cbn [rbind].
    rewrite (proj2 (detection_Forall2 _ _) Hdet). cbn [rbind].
    rewrite Hdb. cbn [rbind].
    assert (Hne : detected <> []).
    { apply detected_bodies_rows in Hdb. destruct Hdb as [Hne _].
      intros ->. apply Hne. reflexivity. }
    unfold first_frame_shape.
    destruct Hdet as [|f0 p0 fs ps Hf0 Hfs]; [contradiction|].
    cbn [rbind fst snd]. rewrite Hab. reflexivity.
Qed.

(** C7: whenever [process] returns, its first output is the rendered
    reference pose followed by the rescaled, rendered pose of every input
    frame, in input order: [N + 1] images for [N] pose frames.  The
    reference pose is what the detector finds in the reference image; the
    scale [a] and the offset [b] are the rescale parameters computed from
    the reference keypoints selected in it and from the detected frames;
    and the pose drawn for a frame is the detected one with every rescaled
    keypoint [(x, y)] moved to [(x * ax + bx, y * ay + by)]. *)
Theorem poses_with_ref_output (w : world) (o1 o2 : list Tensor) :
  fst (process ref_image pose_images include_body include_hand include_face
         w) = Ok (o1, o2) ->
  exists img ref_pose ids ref_body detected db a b,
    frames ref_image = [img] /\
    dwprocessor (times255 img) = Done ref_pose /\
    select_ref_keypoints (score (bodies ref_pose)) ref_keypoint_candidates
    = Ok ids /\
    take_rows ids (candidate (bodies ref_pose)) = Ok ref_body /\
    Forall2 (fun i p => dwprocessor (times255 i) = Done p)
      (frames pose_images) detected /\
    detected_bodies ids detected = Ok db /\
    rescale_params ref_body db (height pose_images) (width pose_images)
      (height ref_image) (width ref_image) = Ok (a, b) /\
    o1 = render ref_pose :: map (fun p => render (moved a b p)) detected /\
    length o1 = S (length (frames pose_images)).
Proof.
  intros Hrun. apply process_ok_iff in Hrun.
  destruct Hrun as (_ & img & ref_pose & ids & ref_body & detected & db
                    & [a b] & Href & Hrp & Hids & Hbody & Hdet & Hdb & Hab
                    & -> & _).
  exists img, ref_pose, ids, ref_body, detected, db, a, b.
  do 7 (split; [assumption|]).
  split.
  - f_equal. apply map_ext. intros p. cbn [fst snd].
    rewrite rescale_pose_coordinates. reflexivity.
  - cbn [length]. rewrite length_map.
    rewrite (Forall2_length Hdet). reflexivity.
Qed.

(** C10: whenever [process] returns, its second output is its first output
    without the first frame, and has one frame fewer. *)
Theorem pose_images_is_tail (w : world) (o1 o2 : list Tensor) :
  fst (process ref_image pose_images include_body include_hand include_face
         w) = Ok (o1, o2) ->
  o2 = tl o1 /\ length o1 = S (length o2).
Proof.
  intros Hrun. apply process_ok_iff in Hrun.
  destruct Hrun as (_ & img & ref_pose & ids & ref_body & detected & db & ab
                    & _ & _ & _ & _ & _ & _ & _ & -> & ->).
  split; reflexivity.
Qed.

(** C6: whenever [process] returns, the rows handed to the fit come from
    the detected frames with exactly 18 body keypoints, one entry for each
    in order, made of its keypoints at the reference indices selected in
    the reference pose; the frames with another number of keypoints add
    nothing to them.  The fit is [np.polyfit] on the [y] coordinates of
    these rows against the [y] coordinates of the reference keypoints,
    repeated once for each row, and its slope and intercept are the
    vertical scale and offset.  The second output holds, for every detected
    frame whatever its number of keypoints, the drawing of the pose with
    every rescaled keypoint [(x, y)] moved to [(x * ax + bx, y * ay + by)]. *)
Theorem fit_skips_frames_without_18_keypoints (w : world)
  (o1 o2 : list Tensor) :
  fst (process ref_image pose_images include_body include_hand include_face
         w) = Ok (o1, o2) ->
  exists img ref_pose ids ref_body detected db a b,
    frames ref_image = [img] /\
    dwprocessor (times255 img) = Done ref_pose /\
    select_ref_keypoints (score (bodies ref_pose)) ref_keypoint_candidates
    = Ok ids /\
    take_rows ids (candidate (bodies ref_pose)) = Ok ref_body /\
    Forall2 (fun i p => dwprocessor (times255 i) = Done p)
      (frames pose_images) detected /\
    Forall2 (fun p rows => take_rows ids (candidate (bodies p)) = Ok rows)
      (filter (fun p => length (candidate (bodies p)) =? 18) detected) db /\
    polyfit1 (flat_map (map snd) db)
      (concat (repeat (map snd ref_body) (length db)))
    = Done (snd a, snd b) /\
    rescale_params ref_body db (height pose_images) (width pose_images)
      (height ref_image) (width ref_image) = Ok (a, b) /\
    o2 = map (fun p => render (moved a b p)) detected /\
    length o2 = length (frames pose_images).
Proof.
  intros Hrun. apply process_ok_iff in Hrun.
  destruct Hrun as (_ & img & ref_pose & ids & ref_body & detected & db
                    & [a b] & Href & Hrp & Hids & Hbody & Hdet & Hdb & Hab
                    & _ & ->).
  exists img, ref_pose, ids, ref_body, detected, db, a, b.
  do 5 (split; [assumption|]).
  split; [apply detected_bodies_rows in Hdb; apply Hdb|].
  split; [exact (rescale_params_fit _ _ _ _ _ _ Hab)|].
  split; [exact Hab|].
  split.
  - apply map_ext. intros p. cbn [fst snd].
    rewrite rescale_pose_coordinates. reflexivity.
  - rewrite length_map. symmetry. apply (Forall2_length Hdet).
Qed.

End Process.

Section Rescale.

Context {B : Backend}.

(** C3: the rescale of one detected pose moves every [faces] keypoint
    [(x, y)] to [(x * ax + bx, y * ay + by)] when [include_hand] is set and
    leaves the [faces] keypoints as they are otherwise; it moves every
    [hands] keypoint in the same way when [include_face] is set and leaves
    the [hands] keypoints as they are otherwise. *)
Theorem rescale_pairs_faces_with_include_hand
  (include_body include_hand include_face : bool) (a b : point)
  (detected_pose : pose_t) :
  let rescaled :=
    rescale_pose include_body include_hand include_face a b detected_pose in
  let moved :=
    fun k : point => (fst k * fst a + fst b, snd k * snd a + snd b)%R in
  faces rescaled =
  (if include_hand then map (map moved) (faces detected_pose)
   else faces detected_pose) /\
  hands rescaled =
  (if include_face then map (map moved) (hands detected_pose)
   else hands detected_pose).
Proof.
  unfold rescale_pose, affine.
  destruct include_body, include_hand, include_face; split; reflexivity.
Qed.

End Rescale.

(** *** A run on the concrete backend

    One reference image and four pose frames: one person, nobody, two
    people, one person.  The drawing routine of the concrete backend
    returns the number of body keypoints of the pose it is given. *)

Lemma demo_select :
  select_ref_keypoints (score (bodies Demo.person)) ref_keypoint_candidates
  = Ok ref_keypoint_candidates.
Proof.
  cbn. repeat (destruct (Rgt_dec 1 0.3) as [_|Hn]; [|exfalso; lra]).
  reflexivity.
Qed.

Lemma demo_run :
  fst (process (B := Demo.backend) (Demo.images [1]) (Demo.images [1; 0; 2; 1])
         true true true Demo.world0)
  = Ok ([18; 18; 0; 36; 18], [18; 0; 36; 18]).
Proof.
  rewrite get_poses_run.
  match goal with
  | |- context [same_resolution ?a ?b] => change (same_resolution a b) with true
  end.
  cbv iota. rewrite process_body_result.
  cbn [squeeze0 frames Demo.images rbind times255 dwprocessor Demo.backend
       Demo.detector lift_ext map map_result].
  rewrite demo_select. cbn [rbind]. reflexivity.
Qed.

Lemma pose_images_is_tail_witness :
  fst (process (B := Demo.backend) (Demo.images [1]) (Demo.images [1; 0; 2; 1])
         true true true Demo.world0)
  = Ok ([18; 18; 0; 36; 18], [18; 0; 36; 18]) /\
  [18; 0; 36; 18] = tl [18; 18; 0; 36; 18] /\
  length [18; 18; 0; 36; 18] = S (length [18; 0; 36; 18]).
Proof.
  split; [exact demo_run|].
  exact (@pose_images_is_tail Demo.backend (Demo.images [1])
           (Demo.images [1; 0; 2; 1]) true true true Demo.world0
           [18; 18; 0; 36; 18] [18; 0; 36; 18] demo_run).
Defined.

Lemma resolution_checked_first_witness :
  process (B := Demo.backend)
    {| frames := [1]; height := 8; width := 3; channels := 3 |}
    (Demo.images [1; 0; 2; 1]) true true true Demo.world0
  = (Raise (AssertionError assert_message), Demo.world0) /\
  is_assertion
    (fst (process (B := Demo.backend) (Demo.images [1])
            (Demo.images [1; 0; 2; 1]) true true true Demo.world0))
  = false.
Proof.
  split.
  - apply (@resolution_checked_first Demo.backend
             {| frames := [1]; height := 8; width := 3; channels := 3 |}
             (Demo.images [1; 0; 2; 1]) true true true Demo.world0).
    simpl. intros Heq. discriminate Heq.
  - apply (@resolution_checked_first Demo.backend (Demo.images [1])
             (Demo.images [1; 0; 2; 1]) true true true Demo.world0).
    reflexivity.
Defined.

(** *** A run on the backend whose images show their keypoints

    The reference image shows the keypoint [(5, 9)], 16 keypoints at
    [(7, 13)] and a last keypoint at [(0, 0)] of which the detector is not
    confident; the first pose frame shows the keypoint [(1, 4)], 16
    keypoints at [(2, 6)] and a last keypoint at [(9, 9)]; the second pose
    frame shows the one keypoint [(1, 4)]; the detector adds a hand
    keypoint at [(10, 20)] and a face keypoint at [(30, 40)] to every pose.
    The selected reference indices are the candidates but 17, the fit is
    on the first pose frame alone and returns the slope 2 and the intercept
    1, so the scale is [(2, 2)] and the offset [(3, 1)]. *)

Lemma keypoints_select :
  select_ref_keypoints [repeat 1%R 17 ++ [0.1%R]] ref_keypoint_candidates
  = Ok [0; 1; 2; 5; 8; 11; 14; 15; 16].
Proof.
  cbn. repeat (destruct (Rgt_dec 1 0.3) as [_|Hn]; [|exfalso; lra]).
  destruct (Rgt_dec 0.1 0.3) as [Hn|_]; [exfalso; lra|].
  reflexivity.
Qed.

Lemma keypoints_params :
  rescale_params (B := DemoKeypoints.backend)
    ((5, 9)%R :: repeat (7, 13)%R 8) [(1, 4)%R :: repeat (2, 6)%R 8]
    4 3 4 3 = Ok ((2, 2), (3, 1))%R.
Proof.
  unfold rescale_params.
  cbn [fit_x fit_y flat_map repeat map app polyfit1 DemoKeypoints.backend
       DemoKeypoints.fit lift_ext rbind fst snd length tile last hd].
  unfold aspect_ratio, mean. cbn [Nat.eqb rbind zip_with fold_right length].
  assert (Hratio : (INR 4 / INR 3 / INR 4 * INR 3 = 1)%R)
    by (simpl; field).
  assert (Hslope : ((13 - 9) / (6 - 4) = 2)%R) by field.
  rewrite Hratio, Hslope. repeat f_equal; simpl; field.
Qed.

Lemma keypoints_run :
  fst (process (B := DemoKeypoints.backend) DemoKeypoints.ref_image
         DemoKeypoints.pose_images true true true DemoKeypoints.world0)
  = Ok ([(5, 9)%R :: repeat (7, 13)%R 16
         ++ [(0, 0)%R; (10, 20)%R; (30, 40)%R];
         (5, 9)%R :: repeat (7, 13)%R 16
         ++ [(21, 19)%R; (23, 41)%R; (63, 81)%R];
         [(5, 9)%R; (23, 41)%R; (63, 81)%R]],
        [(5, 9)%R :: repeat (7, 13)%R 16
         ++ [(21, 19)%R; (23, 41)%R; (63, 81)%R];
         [(5, 9)%R; (23, 41)%R; (63, 81)%R]]).
Proof.
  rewrite get_poses_run.
  match goal with
  | |- context [same_resolution ?a ?b] => change (same_resolution a b) with true
  end.
  cbv iota. rewrite process_body_result.
  cbn [squeeze0 unpack_shape frames DemoKeypoints.ref_image
       DemoKeypoints.pose_images DemoKeypoints.images rbind times255
       dwprocessor DemoKeypoints.backend DemoKeypoints.detector lift_ext map
       map_result bodies score candidate].
  rewrite keypoints_select. cbn [rbind].
  cbn [take_rows repeat app nth_error rbind].
  unfold detected_bodies, has_18_keypoints.
  cbn [filter bodies candidate length repeat app Nat.eqb map stack rbind
       map_result take_rows nth_error
       first_frame_shape DemoKeypoints.pose_images DemoKeypoints.images
       DemoKeypoints.ref_image frames height width fst snd].
  match goal with
  | |- context [rescale_params ?rb ?db 4 3 4 3] =>
      replace (rescale_params rb db 4 3 4 3) with (Ok ((2, 2), (3, 1))%R)
        by (symmetry; exact keypoints_params)
  end.
  cbn [rbind torch_stack fst snd tl map].
  unfold rescale_pose, affine, set_candidate, set_faces, set_hands.
  cbn [bodies candidate subset score hands faces hands_score faces_score
       map fst snd draw_pose cpu_float chw_to_hwc div255 as_tensor
       DemoKeypoints.backend DemoKeypoints.draw concat app repeat].
  repeat f_equal; lra.
Qed.

Lemma poses_with_ref_output_witness :
  let o1 :=
    [(5, 9)%R :: repeat (7, 13)%R 16 ++ [(0, 0)%R; (10, 20)%R; (30, 40)%R];
     (5, 9)%R :: repeat (7, 13)%R 16
     ++ [(21, 19)%R; (23, 41)%R; (63, 81)%R];
     [(5, 9)%R; (23, 41)%R; (63, 81)%R]] in
  fst (process (B := DemoKeypoints.backend) DemoKeypoints.ref_image
         DemoKeypoints.pose_images true true true DemoKeypoints.world0)
  = Ok (o1, tl o1) /\
  length o1 = S (length (frames DemoKeypoints.pose_images)) /\
  exists a b : point,
    rescale_params (B := DemoKeypoints.backend)
      ((5, 9)%R :: repeat (7, 13)%R 8) [(1, 4)%R :: repeat (2, 6)%R 8]
      4 3 4 3 = Ok (a, b) /\
    tl o1 =
    map (map (fun k : point =>
                (fst k * fst a + fst b, snd k * snd a + snd b)%R))
      [(1, 4)%R :: repeat (2, 6)%R 16
       ++ [(9, 9)%R; (10, 20)%R; (30, 40)%R];
       [(1, 4)%R; (10, 20)%R; (30, 40)%R]].
Proof.
  cbv zeta. split; [exact keypoints_run|].
  destruct (@poses_with_ref_output DemoKeypoints.backend
              DemoKeypoints.ref_image DemoKeypoints.pose_images
              true true true DemoKeypoints.world0 _ _ keypoints_run)
    as (img & ref_pose & ids & ref_body & detected & db & a & b
        & Href & Hrp & Hids & Hbody & Hdet & Hdb & Hab & Ho1 & Hlen).
  split; [exact Hlen|].
  exists a, b.
  injection Href as <-.
  cbn [times255 dwprocessor DemoKeypoints.backend DemoKeypoints.detector]
    in Hrp.
  injection Hrp as <-.
  cbn [bodies score candidate] in Hids, Hbody.
  assert (Hsel : Ok ids = Ok [0; 1; 2; 5; 8; 11; 14; 15; 16])
    by (rewrite <- Hids; exact keypoints_select).
  injection Hsel as ->. clear Hids.
  cbn [take_rows repeat app nth_error rbind] in Hbody.
  injection Hbody as <-.
  cbn [frames DemoKeypoints.pose_images DemoKeypoints.images] in Hdet.
  inversion Hdet as [|i1 p1 l1 ps1 H1 Hrest1]; subst.
  inversion Hrest1 as [|i2 p2 l2 ps2 H2 Hrest2]; subst.
  inversion Hrest2; subst. clear Hdet Hrest1 Hrest2.
  cbn [times255 dwprocessor DemoKeypoints.backend DemoKeypoints.detector]
    in H1, H2.
  injection H1 as <-. injection H2 as <-.
  unfold detected_bodies, has_18_keypoints in Hdb.
  cbn [filter bodies candidate length repeat app Nat.eqb map stack rbind
       map_result take_rows nth_error] in Hdb.
  injection Hdb as <-.
  split; [exact Hab|].
  rewrite Ho1.
  cbn [tl map draw_pose cpu_float chw_to_hwc div255 as_tensor
       DemoKeypoints.backend DemoKeypoints.draw bodies candidate hands faces
       concat map app repeat fst snd].
  reflexivity.
Defined.

Lemma fit_skips_frames_without_18_keypoints_witness :
  let o2 :=
    [(5, 9)%R :: repeat (7, 13)%R 16
     ++ [(21, 19)%R; (23, 41)%R; (63, 81)%R];
     [(5, 9)%R; (23, 41)%R; (63, 81)%R]] in
  fst (process (B := DemoKeypoints.backend) DemoKeypoints.ref_image
         DemoKeypoints.pose_images true true true DemoKeypoints.world0)
  = Ok (((5, 9)%R :: repeat (7, 13)%R 16
         ++ [(0, 0)%R; (10, 20)%R; (30, 40)%R]) :: o2, o2) /\
  length o2 = length (frames DemoKeypoints.pose_images) /\
  exists (db : list (list point)) (a b : point),
    db = [(1, 4)%R :: repeat (2, 6)%R 8] /\
    DemoKeypoints.fit (flat_map (map snd) db)
      (concat (repeat (9%R :: repeat 13%R 8) (length db)))
    = Done (snd a, snd b) /\
    o2 =
    map (map (fun k : point =>
                (fst k * fst a + fst b, snd k * snd a + snd b)%R))
      [(1, 4)%R :: repeat (2, 6)%R 16
       ++ [(9, 9)%R; (10, 20)%R; (30, 40)%R];
       [(1, 4)%R; (10, 20)%R; (30, 40)%R]].
Proof.
  cbv zeta. split; [exact keypoints_run|].
  destruct (@fit_skips_frames_without_18_keypoints DemoKeypoints.backend
              DemoKeypoints.ref_image DemoKeypoints.pose_images
              true true true DemoKeypoints.world0 _ _ keypoints_run)
    as (img & ref_pose & ids & ref_body & detected & db & a & b
        & Href & Hrp & Hids & Hbody & Hdet & Hrows & Hfit & Hab & Ho2
        & Hlen).
  split; [exact Hlen|].
  exists db, a, b.
  injection Href as <-.
  cbn [times255 dwprocessor DemoKeypoints.backend DemoKeypoints.detector]
    in Hrp.
  injection Hrp as <-.
  cbn [bodies score candidate] in Hids, Hbody.
  assert (Hsel : Ok ids = Ok [0; 1; 2; 5; 8; 11; 14; 15; 16])
    by (rewrite <- Hids; exact keypoints_select).
  injection Hsel as ->. clear Hids.
  cbn [take_rows repeat app nth_error rbind] in Hbody.
  injection Hbody as <-.
  cbn [frames DemoKeypoints.pose_images DemoKeypoints.images] in Hdet.
  inversion Hdet as [|i1 p1 l1 ps1 H1 Hrest1]; subst.
  inversion Hrest1 as [|i2 p2 l2 ps2 H2 Hrest2]; subst.
  inversion Hrest2; subst. clear Hdet Hrest1 Hrest2.
  cbn [times255 dwprocessor DemoKeypoints.backend DemoKeypoints.detector]
    in H1, H2.
  injection H1 as <-. injection H2 as <-.
  cbn [filter bodies candidate length repeat app Nat.eqb] in Hrows.
  inversion Hrows as [|p rows ps dbs Hrow Hnil]; subst.
  inversion Hnil; subst. clear Hrows Hnil.
  cbn [take_rows nth_error rbind] in Hrow.
  injection Hrow as <-.
  split; [reflexivity|].
  split; [exact Hfit|].
  rewrite Ho2.
  cbn [map draw_pose cpu_float chw_to_hwc div255 as_tensor
       DemoKeypoints.backend DemoKeypoints.draw bodies candidate hands faces
       concat map app repeat fst snd].
  reflexivity.
Defined.

End GetPosesFacts.

(** * Further properties *)

(** ** More on [loglinear_interp] *)

Module InterpExtra.

Import Numpy NumpyFacts LogLinearFacts.

Local Open Scope R_scope.

Lemma Rlt_transitive : Relations_1.Transitive Rlt.
Proof. intros x y z Hxy Hyz. lra. Qed.

Lemma sorted_nth_ge (x0 : R) (xp : list R) (j : nat) :
  Sorted Rlt (x0 :: xp) -> (j <= length xp)%nat -> x0 <= nth j (x0 :: xp) 0.
Proof.
  intros Hs Hj. destruct j as [|j]; [simpl; lra|].
  apply Sorted_StronglySorted in Hs; [|exact Rlt_transitive].
  apply StronglySorted_inv in Hs. destruct Hs as [_ Hall].
  rewrite Forall_forall in Hall. left. apply Hall.
  simpl. apply nth_In. lia.
Qed.

(** At a data point the interpolant takes the value of that point. *)
Lemma interp_seg_at_point (xp : list R) :
  forall (x0 f0 : R) (fp : list R) (j : nat),
    Sorted Rlt (x0 :: xp) -> length xp = length fp -> (j <= length xp)%nat ->
    interp_seg (nth j (x0 :: xp) 0) x0 f0 xp fp = nth j (f0 :: fp) 0.
Proof.
  induction xp as [|x1 xp IH]; intros x0 f0 fp j Hs Hlen Hj.
  - destruct fp; [|discriminate]. destruct j; [reflexivity|simpl in Hj; lia].
  - destruct fp as [|f1 fp]; [discriminate|].
    pose proof Hs as Hs'. apply Sorted_inv in Hs'. destruct Hs' as [Hs1 Hh].
    apply HdRel_inv in Hh.
    destruct j as [|j].
    + cbn [nth interp_seg].
      destruct (Rlt_dec x0 x1) as [_|Hge]; [|lra]. unfold Rdiv. ring.
    + change (nth (S j) (x0 :: x1 :: xp) 0) with (nth j (x1 :: xp) 0).
      change (nth (S j) (f0 :: f1 :: fp) 0) with (nth j (f1 :: fp) 0).
      cbn [interp_seg].
      assert (Hx : x1 <= nth j (x1 :: xp) 0)
        by (apply sorted_nth_ge; [exact Hs1|simpl in Hj; lia]).
      destruct (Rlt_dec (nth j (x1 :: xp) 0) x1) as [Hlt|_]; [lra|].
      apply IH; [exact Hs1|simpl in Hlen; lia|simpl in Hj; lia].
Qed.

Lemma interp1_at_point (xp fp : list R) (j : nat) :
  Sorted Rlt xp -> length xp = length fp -> (j < length xp)%nat ->
  interp1 xp fp (nth j xp 0) = nth j fp 0.
Proof.
  intros Hs Hlen Hj. unfold interp1.
  destruct xp as [|x0 xp]; [simpl in Hj; lia|].
  destruct fp as [|f0 fp]; [discriminate|].
  assert (Hx : x0 <= nth j (x0 :: xp) 0)
    by (apply sorted_nth_ge; [exact Hs|simpl in Hj; lia]).
  destruct (Rlt_dec (nth j (x0 :: xp) 0) x0) as [Hlt|_]; [lra|].
  apply interp_seg_at_point; [exact Hs|simpl in Hlen; lia|simpl in Hj; lia].
Qed.

Lemma interp_on_own_grid (xp fp : list R) :
  Sorted Rlt xp -> length xp = length fp ->
  map (interp1 xp fp) xp = fp.
Proof.
  intros Hs Hlen.
  apply nth_ext with (d := interp1 xp fp 0) (d' := 0).
  - rewrite length_map. exact Hlen.
  - intros n Hn. rewrite length_map in Hn. rewrite map_nth.
    apply interp1_at_point; assumption.
Qed.

Lemma exp_ln_all (l : list R) :
  Forall (fun x => 0 < x) l -> map exp (map ln l) = l.
Proof.
  intros Hpos. rewrite map_map. rewrite <- (map_id l) at 2.
  apply map_ext_in. intros x Hx. rewrite Forall_forall in Hpos.
  apply exp_ln, Hpos, Hx.
Qed.

(** X1: [loglinear_interp] fails exactly on the empty sequence, with the
    [ValueError] of [np.interp]; on every other sequence, whatever its
    order and signs, it returns [num_steps] values. *)
Theorem loglinear_interp_fails_on_empty_only (t_steps : list R)
  (num_steps : nat) :
  (t_steps = [] ->
   loglinear_interp t_steps num_steps =
   Raise (ValueError "array of sample points is empty")) /\
  (t_steps <> [] ->
   exists out,
     loglinear_interp t_steps num_steps = Ok out /\ length out = num_steps).
Proof.
  split.
  - intros ->. reflexivity.
  - intros Hne. eexists. split; [apply loglinear_interp_nonempty; exact Hne|].
    rewrite length_rev, !length_map. apply linspace01_length.
Qed.

Lemma loglinear_interp_fails_on_empty_only_witness :
  loglinear_interp [] 5 =
  Raise (ValueError "array of sample points is empty") /\
  exists out, loglinear_interp [1; 3; -2] 5 = Ok out /\ length out = 5%nat.
Proof.
  split.
  - apply (@loglinear_interp_fails_on_empty_only [] 5). reflexivity.
  - apply (@loglinear_interp_fails_on_empty_only [1; 3; -2] 5). discriminate.
Defined.

(** X2: resampling a sequence of positive numbers to its own length gives
    the sequence back. *)
Theorem loglinear_interp_same_length (t_steps : list R) :
  t_steps <> [] ->
  Forall (fun x => 0 < x) t_steps ->
  loglinear_interp t_steps (length t_steps) = Ok t_steps.
Proof.
  intros Hne Hpos. rewrite (loglinear_interp_nonempty _ Hne).
  rewrite interp_on_own_grid.
  - rewrite exp_ln_all, rev_involutive; [reflexivity|].
    apply Forall_forall. intros x Hx. rewrite Forall_forall in Hpos.
    apply Hpos, in_rev, Hx.
  - apply StronglySorted_Sorted, linspace01_sorted.
  - rewrite linspace01_length, length_map, length_rev. reflexivity.
Qed.

Lemma loglinear_interp_same_length_witness :
  loglinear_interp [4; 1; 2] (length [4; 1; 2]) = Ok [4; 1; 2].
Proof.
  apply (@loglinear_interp_same_length [4; 1; 2]).
  - discriminate.
  - repeat constructor; lra.
Defined.

Lemma linspace01_ge_0 (n : nat) : Forall (fun x => 0 <= x) (linspace01 n).
Proof.
  destruct n as [|[|k]].
  - constructor.
  - constructor; [lra|constructor].
  - rewrite linspace01_grid. apply Forall_map, Forall_forall.
    intros i _. pose proof (grid_pos k) as Hpos.
    unfold Rdiv. apply Rmult_le_pos; [apply pos_INR|].
    left. apply Rinv_0_lt_compat. exact Hpos.
Qed.

Section Resampled.

Variable t_steps : list R.
Hypothesis Hne : t_steps <> [].
Hypothesis Hsorted : Sorted Rgt t_steps.
Hypothesis Hpos : Forall (fun x => 0 < x) t_steps.

Lemma resampled_values (num_steps : nat) :
  loglinear_interp t_steps num_steps =
  Ok (rev (map (fun x =>
                  exp (interp1 (linspace01 (length t_steps))
                         (map ln (rev t_steps)) x))
             (linspace01 num_steps))).
Proof. rewrite (loglinear_interp_nonempty _ Hne), map_map. reflexivity. Qed.

Lemma resampled_monotone (x x' : R) :
  x <= x' ->
  interp1 (linspace01 (length t_steps)) (map ln (rev t_steps)) x <=
  interp1 (linspace01 (length t_steps)) (map ln (rev t_steps)) x'.
Proof.
  intros Hxx. apply interp1_mono; [exact Hxx| |].
  - apply StronglySorted_Sorted, linspace01_sorted.
  - apply StronglySorted_Sorted.
    apply StronglySorted_weaken with (R := Rlt); [intros; lra|].
    apply log_values_sorted; assumption.
Qed.

Lemma resampled_between (x : R) :
  0 <= x <= 1 ->
  last t_steps 0 <=
  exp (interp1 (linspace01 (length t_steps)) (map ln (rev t_steps)) x)
  <= hd 0 t_steps.
Proof.
  intros [Hx0 Hx1].
  pose proof (resampled_monotone Hx0) as Hlow.
  pose proof (resampled_monotone Hx1) as Hhigh.
  rewrite (interp_left_end Hne) in Hlow.
  rewrite (interp_right_end Hne) in Hhigh.
  apply exp_monotone in Hlow. apply exp_monotone in Hhigh.
  rewrite exp_ln in Hlow by (apply last_In_pos; assumption).
  rewrite exp_ln in Hhigh by (apply hd_In_pos; assumption).
  split; assumption.
Qed.

Lemma resampled_sorted (num_steps : nat) :
  StronglySorted Rge
    (rev (map (fun x =>
                 exp (interp1 (linspace01 (length t_steps))
                        (map ln (rev t_steps)) x))
            (linspace01 num_steps))).
Proof.
  apply StronglySorted_weaken with (R := fun a b => b <= a);
    [intros a b; apply Rle_ge|].
  apply StronglySorted_rev_flip.
  apply StronglySorted_map_in with (R := Rlt); [|apply linspace01_sorted].
  intros a b _ _ Hab. apply exp_monotone, resampled_monotone. lra.
Qed.

Lemma resampled_first (num_steps : nat) :
  (2 <= num_steps)%nat ->
  hd 0
    (rev (map (fun x =>
                 exp (interp1 (linspace01 (length t_steps))
                        (map ln (rev t_steps)) x))
            (linspace01 num_steps)))
  = hd 0 t_steps.
Proof.
  intros Hn. rewrite hd_rev.
  assert (Hgrid : linspace01 num_steps <> []).
  { apply nonempty_length. rewrite linspace01_length. lia. }
  rewrite last_map_nonempty with (d := 0) by exact Hgrid.
  rewrite linspace01_last by exact Hn.
  rewrite (interp_right_end Hne).
  apply exp_ln, hd_In_pos; assumption.
Qed.

Lemma resampled_range (num_steps : nat) :
  Forall (fun v => last t_steps 0 <= v <= hd 0 t_steps)
    (rev (map (fun x =>
                 exp (interp1 (linspace01 (length t_steps))
                        (map ln (rev t_steps)) x))
            (linspace01 num_steps))).
Proof.
  apply Forall_forall. intros v Hv. apply in_rev in Hv.
  apply in_map_iff in Hv. destruct Hv as (x & <- & Hx).
  apply resampled_between.
  pose proof (linspace01_ge_0 num_steps) as Hge.
  pose proof (linspace01_le_1 num_steps) as Hle.
  rewrite Forall_forall in Hge, Hle. split; [apply Hge|apply Hle]; exact Hx.
Qed.

(** X3: in exact arithmetic, every resampled value of a strictly decreasing
    sequence of positive numbers lies between the last and the first number
    of the sequence.  (The rounding of [np.exp] and [np.log] is not
    modelled: in float64 a value may leave the range by that rounding.) *)
Theorem loglinear_interp_stays_in_range (num_steps : nat) :
  exists out,
    loglinear_interp t_steps num_steps = Ok out /\
    Forall (fun v => last t_steps 0 <= v <= hd 0 t_steps) out.
Proof.
  eexists. split; [apply resampled_values|apply resampled_range].
Qed.

End Resampled.

Lemma loglinear_interp_stays_in_range_witness :
  exists out,
    loglinear_interp [4; 2; 1] 7 = Ok out /\
    Forall (fun v => last [4; 2; 1] 0 <= v <= hd 0 [4; 2; 1]) out.
Proof.
  apply (@loglinear_interp_stays_in_range [4; 2; 1]).
  - discriminate.
  - repeat constructor; unfold Rgt; lra.
  - repeat constructor; lra.
Defined.

End InterpExtra.

(** ** More on [MimicMotionSampler] *)

Module SamplerExtra.

Import DiffusersScheduler MimicMotionSampler SamplerFacts.

Local Open Scope R_scope.

Lemma StronglySorted_app_l {A : Type} (R : A -> A -> Prop) (l l' : list A) :
  StronglySorted R (l ++ l') -> StronglySorted R l.
Proof.
  induction l as [|a l IH]; intros Hs; [constructor|].
  simpl in Hs. apply StronglySorted_inv in Hs. destruct Hs as [Hs Hall].
  constructor; [apply IH; exact Hs|].
  apply Forall_app in Hall. apply Hall.
Qed.

Lemma removelast_incl {A : Type} (l : list A) (a : A) :
  In a (removelast l) -> In a l.
Proof.
  destruct l as [|b l]; [contradiction|]. intros Hin.
  assert (Hne : b :: l <> []) by discriminate.
  rewrite (app_removelast_last b Hne). apply in_or_app. left. exact Hin.
Qed.

Lemma hd_removelast {A : Type} (d : A) (l : list A) :
  (2 <= length l)%nat -> hd d (removelast l ++ [d]) = hd d l.
Proof. destruct l as [|a [|b l]]; simpl; intros Hlen; [lia..|reflexivity]. Qed.

(** The sigma table [resolve_sigmas] builds from a resampled table. *)
Lemma resolve_sigmas_resampled (table out : list R) (steps : nat) :
  (steps + 1 <> length table)%nat ->
  loglinear_interp table (steps + 1) = Ok out ->
  length out = (steps + 1)%nat ->
  resolve_sigmas (Some table) steps = Ok (Some (removelast out ++ [0])).
Proof.
  intros Hlen Hout Hn. unfold resolve_sigmas.
  rewrite (proj2 (Nat.eqb_neq _ _) Hlen). simpl negb. cbv iota.
  rewrite Hout. unfold rbind. rewrite (slice_last_whole out Hn).
  rewrite set_last_nonempty; [reflexivity|].
  intros ->. simpl in Hn. lia.
Qed.

(** X4: from a table that is not empty the sampler always obtains a sigma
    sequence of [steps + 1] entries, resampled or not. *)
Theorem resolve_sigmas_length (table : list R) (steps : nat) :
  table <> [] ->
  exists s,
    resolve_sigmas (Some table) steps = Ok (Some s) /\
    length s = (steps + 1)%nat.
Proof.
  intros Hne.
  destruct (Nat.eq_dec (steps + 1) (length table)) as [Heq|Hneq].
  - exists table. split; [apply resolve_sigmas_same; exact Heq|].
    symmetry. exact Heq.
  - destruct (resolve_sigmas_interp steps Hne Hneq) as (s & Hs & Hlen & _).
    exists s. split; assumption.
Qed.

Lemma resolve_sigmas_length_witness :
  exists s,
    resolve_sigmas (Some [5; 3; 1]) 6 = Ok (Some s) /\
    length s = (6 + 1)%nat.
Proof. apply (@resolve_sigmas_length [5; 3; 1] 6). discriminate. Defined.

(** X5: when a strictly decreasing table of positive numbers is resampled
    for at least one step, the sigma sequence has [steps + 1] entries and
    ends in zero, whatever the arithmetic; in exact arithmetic it starts at
    the first number of the table, never increases and stays between zero
    and that first number.  (The rounding of [np.exp] and [np.log] is not
    modelled: in float64 the first entry is the first number of the table
    up to that rounding.) *)
Theorem resampled_schedule_shape (table : list R) (steps : nat) :
  table <> [] ->
  Sorted Rgt table ->
  Forall (fun x => 0 < x) table ->
  (1 <= steps)%nat ->
  (steps + 1 <> length table)%nat ->
  exists s,
    resolve_sigmas (Some table) steps = Ok (Some s) /\
    length s = (steps + 1)%nat /\
    hd 0 s = hd 0 table /\
    last s 1 = 0 /\
    StronglySorted Rge s /\
    Forall (fun v => 0 <= v <= hd 0 table) s.
Proof.
  intros Hne Hsorted Hpos Hsteps Hlen.
  pose proof (InterpExtra.resampled_values Hne (steps + 1)) as Hout.
  set (out := rev _) in Hout.
  assert (Hn : length out = (steps + 1)%nat).
  { unfold out. rewrite length_rev, length_map.
    apply NumpyFacts.linspace01_length. }
  assert (Hsort : StronglySorted Rge out)
    by (apply InterpExtra.resampled_sorted; assumption).
  assert (Hfirst : hd 0 out = hd 0 table)
    by (apply InterpExtra.resampled_first; [assumption..|lia]).
  assert (Hrange : Forall (fun v => last table 0 <= v <= hd 0 table) out)
    by (apply InterpExtra.resampled_range; assumption).
  assert (Hlast : 0 < last table 0)
    by (apply LogLinearFacts.last_In_pos; assumption).
  assert (Hout_ne : out <> []).
  { intros Hnil. rewrite Hnil in Hn. simpl in Hn. lia. }
  exists (removelast out ++ [0]).
  split; [apply resolve_sigmas_resampled; assumption|].
  split; [rewrite length_set_last by exact Hout_ne; exact Hn|].
  split; [rewrite hd_removelast by lia; exact Hfirst|].
  split; [apply last_last|].
  rewrite Forall_forall in Hrange.
  split.
  - apply StronglySorted_snoc.
    + apply StronglySorted_app_l with (l' := [last out 0]).
      rewrite <- app_removelast_last by exact Hout_ne. exact Hsort.
    + apply Forall_forall. intros a Ha. apply removelast_incl in Ha.
      apply Rle_ge. destruct (Hrange a Ha) as [Hlow _]. lra.
  - apply Forall_app. split.
    + apply Forall_forall. intros a Ha. apply removelast_incl in Ha.
      destruct (Hrange a Ha) as [Hlow Hhigh]. lra.
    + constructor; [|constructor].
      pose proof (LogLinearFacts.hd_In_pos Hne Hpos). lra.
Qed.

Lemma align_your_steps_table_decreasing :
  Sorted Rgt align_your_steps_sigmas /\
  Forall (fun x => 0 < x) align_your_steps_sigmas.
Proof.
  unfold align_your_steps_sigmas.
  split; repeat constructor; unfold Rgt; lra.
Qed.

Lemma resampled_schedule_shape_witness :
  exists s,
    resolve_sigmas (Some align_your_steps_sigmas) 25 = Ok (Some s) /\
    length s = (25 + 1)%nat /\
    hd 0 s = hd 0 align_your_steps_sigmas /\
    last s 1 = 0 /\
    StronglySorted Rge s /\
    Forall (fun v => 0 <= v <= hd 0 align_your_steps_sigmas) s.
Proof.
  apply (@resampled_schedule_shape align_your_steps_sigmas 25).
  - discriminate.
  - apply align_your_steps_table_decreasing.
  - apply align_your_steps_table_decreasing.
  - lia.
  - simpl. lia.
Defined.

Section Process.

Context {B : Backend}.

Variables (mimic_pipeline : mimic_bundle) (ref_image pose_images : batch Tensor).
Variables (cfg_min cfg_max : R) (steps seed : nat) (noise_aug_strength : R).
Variables (fps : nat) (keep_model_loaded : bool).
Variables (context_size context_overlap : nat).

Lemma assign_same_scheduler (p : pipeline_obj Scheduler Weights) :
  assign_scheduler (scheduler p) p = p.
Proof. destruct p. reflexivity. Qed.

(** X6: when the pipeline call fails, [process] fails with the same error
    and no model is moved, whatever [keep_model_loaded] says. *)
Theorem failed_sampling_skips_offload (opt : option scheduler_options)
  (w : world) (sg : option (list R)) (tag : nat) :
  let r := bundle_pipeline mimic_pipeline in
  let s :=
    match opt with
    | Some o => noise_scheduler o
    | None => scheduler (pipes w r)
    end in
  let run :=
    process mimic_pipeline ref_image pose_images cfg_min cfg_max steps seed
      noise_aug_strength fps keep_model_loaded context_size context_overlap
      opt w in
  match opt with
  | Some o => resolve_sigmas (sigmas o) steps
  | None => Ok None
  end = Ok sg ->
  (context_size <= length (frames pose_images))%nat ->
  run_pipeline (assign_scheduler s (pipes w r))
    (call_args (bundle_dtype mimic_pipeline) ref_image pose_images cfg_min
       cfg_max steps seed noise_aug_strength fps context_size
       context_overlap sg)
  = Failed tag ->
  fst run = Raise (ExternalError tag) /\
  forall r',
    unet_device (pipes (snd run) r') = unet_device (pipes w r') /\
    vae_device (pipes (snd run) r') = vae_device (pipes w r').
Proof.
  cbv zeta. intros Hres Hctx Hfail.
  rewrite sampler_run. cbv zeta.
  rewrite Hres, (proj2 (Nat.leb_le _ _) Hctx).
  cbn [pipes log with_pipe]. rewrite Nat.eqb_refl, Hfail.
  split; [reflexivity|]. intros r'. cbn.
  destruct (r' =? bundle_pipeline mimic_pipeline)%nat eqn:Hr;
    [|split; reflexivity].
  apply Nat.eqb_eq in Hr. subst r'. split; reflexivity.
Qed.

(** X7: when the pipeline call succeeds, [process] returns its frames; with
    [keep_model_loaded] off the UNet and the VAE of the bundle's pipeline
    are on the offload device afterwards, with [keep_model_loaded] on each
    of them is on the device it was on before the call; no other pipeline
    object is touched. *)
Theorem successful_sampling_offloads_on_request
  (opt : option scheduler_options) (w : world) (sg : option (list R))
  (fr : Tensor) :
  let r := bundle_pipeline mimic_pipeline in
  let s :=
    match opt with
    | Some o => noise_scheduler o
    | None => scheduler (pipes w r)
    end in
  let run :=
    process mimic_pipeline ref_image pose_images cfg_min cfg_max steps seed
      noise_aug_strength fps keep_model_loaded context_size context_overlap
      opt w in
  match opt with
  | Some o => resolve_sigmas (sigmas o) steps
  | None => Ok None
  end = Ok sg ->
  (context_size <= length (frames pose_images))%nat ->
  run_pipeline (assign_scheduler s (pipes w r))
    (call_args (bundle_dtype mimic_pipeline) ref_image pose_images cfg_min
       cfg_max steps seed noise_aug_strength fps context_size
       context_overlap sg)
  = Done fr ->
  fst run = Ok {| samples := fr |} /\
  unet_device (pipes (snd run) r) =
  (if keep_model_loaded then unet_device (pipes w r) else offload_device) /\
  vae_device (pipes (snd run) r) =
  (if keep_model_loaded then vae_device (pipes w r) else offload_device) /\
  forall r', r' <> r -> pipes (snd run) r' = pipes w r'.
Proof.
  cbv zeta. intros Hres Hctx Hdone.
  rewrite sampler_run. cbv zeta.
  rewrite Hres, (proj2 (Nat.leb_le _ _) Hctx).
  cbn [pipes log with_pipe]. rewrite Nat.eqb_refl, Hdone.
  split; [reflexivity|].
  destruct keep_model_loaded; cbn; rewrite ?Nat.eqb_refl;
    (split; [reflexivity|]); (split; [reflexivity|]);
    intros r' Hr; apply Nat.eqb_neq in Hr; rewrite ?Hr; reflexivity.
Qed.

(** X8: without an optional scheduler and with [keep_model_loaded] on, a
    call leaves every pipeline object and every file as it was, whatever
    its outcome. *)
Theorem plain_sampling_keeps_the_store (w : world) :
  keep_model_loaded = true ->
  let run :=
    process mimic_pipeline ref_image pose_images cfg_min cfg_max steps seed
      noise_aug_strength fps keep_model_loaded context_size context_overlap
      None w in
  (forall r', pipes (snd run) r' = pipes w r') /\
  (forall f, files (snd run) f = files w f).
Proof.
  intros Hkeep. cbv zeta. rewrite sampler_run. cbv zeta. rewrite Hkeep.
  assert (Hpipes : forall r',
    pipes
      (with_pipe (bundle_pipeline mimic_pipeline)
         (assign_scheduler
            (scheduler
               (pipes (log EvSoftEmptyCache (log EvUnloadAllModels w))
                  (bundle_pipeline mimic_pipeline)))
            (pipes (log EvSoftEmptyCache (log EvUnloadAllModels w))
               (bundle_pipeline mimic_pipeline)))
         (log EvSoftEmptyCache (log EvUnloadAllModels w))) r' = pipes w r').
  { intros r'. cbn.
    destruct (Nat.eqb_spec r' (bundle_pipeline mimic_pipeline)) as [->|_];
      [|reflexivity].
    apply assign_same_scheduler. }
  destruct (context_size <=? length (frames pose_images))%nat;
    [|split; [exact Hpipes|reflexivity]].
  destruct (run_pipeline _ _); split; try exact Hpipes; reflexivity.
Qed.

(** X9: a call logs at most one pipeline call, and every call it logs is
    for as many frames as there are pose images, with a tile no longer
    than that, one prepared pose image for each frame, the requested number
    of steps, chunks of four and latent output. *)
Theorem pipeline_call_arguments (opt : option scheduler_options)
  (w : world) :
  let run :=
    process mimic_pipeline ref_image pose_images cfg_min cfg_max steps seed
      noise_aug_strength fps keep_model_loaded context_size context_overlap
      opt w in
  exists calls,
    pipeline_calls (trace (snd run)) = pipeline_calls (trace w) ++ calls /\
    (length calls <= 1)%nat /\
    Forall (fun c =>
              arg_num_frames (snd c) = length (frames pose_images) /\
              (arg_tile_size (snd c) <= arg_num_frames (snd c))%nat /\
              length (arg_image_pose (snd c)) = arg_num_frames (snd c) /\
              arg_num_inference_steps (snd c) = steps /\
              arg_decode_chunk_size (snd c) = 4%nat /\
              arg_output_type (snd c) = "latent"%string)
      calls.
Proof.
  cbv zeta.
  destruct (match opt with
            | Some o => resolve_sigmas (sigmas o) steps
            | None => Ok None
            end) as [sg|e] eqn:Hres.
  - destruct (Nat.leb_spec context_size (length (frames pose_images)))
      as [Hle|Hgt].
    + destruct (@process_call_logged _ mimic_pipeline ref_image pose_images
                  cfg_min cfg_max steps seed noise_aug_strength fps
                  keep_model_loaded context_size context_overlap opt w sg
                  Hres Hle) as (p & _ & Hcall).
      eexists. split; [exact Hcall|]. split; [simpl; lia|].
      constructor; [|constructor]. cbn.
      rewrite !length_map. repeat split; try reflexivity. exact Hle.
    + exists []. rewrite app_nil_r. split; [|split; [simpl; lia|constructor]].
      apply process_call_skipped. intros sg' _. exact Hgt.
  - exists []. rewrite app_nil_r. split; [|split; [simpl; lia|constructor]].
    apply process_call_skipped. intros sg' Hsg. rewrite Hres in Hsg.
    discriminate Hsg.
Qed.

(** X10: with a scheduler built without align-your-steps, every step count
    leads to one pipeline call that carries no sigma table. *)
Theorem no_table_without_align_your_steps (choice : scheduler_choice)
  (sigma_min sigma_max : R) (w : world) :
  (context_size <= length (frames pose_images))%nat ->
  let run :=
    process mimic_pipeline ref_image pose_images cfg_min cfg_max steps seed
      noise_aug_strength fps keep_model_loaded context_size context_overlap
      (Some (loadmodel choice sigma_min sigma_max false)) w in
  exists p a,
    pipeline_calls (trace (snd run)) = pipeline_calls (trace w) ++ [(p, a)] /\
    arg_sigmas a = None /\
    scheduler p =
    match choice with
    | EulerDiscreteScheduler => euler_from_config sigma_min sigma_max
    | AnimateLCM_SVD => animate_lcm_svd sigma_min sigma_max
    end.
Proof.
  intros Hctx. cbv zeta.
  destruct (@process_call_logged _ mimic_pipeline ref_image pose_images
              cfg_min cfg_max steps seed noise_aug_strength fps
              keep_model_loaded context_size context_overlap
              (Some (loadmodel choice sigma_min sigma_max false)) w None
              eq_refl Hctx) as (p & Hp & Hcall).
  eexists p, _. split; [exact Hcall|]. split; [reflexivity|].
  rewrite Hp. destruct choice; reflexivity.
Qed.

(** X21: in the align-your-steps path with enough pose frames and a step
    count for which [steps + 1] is not the length 11 of the table, the
    pipeline is called once, with a sigma sequence of [steps + 1] entries
    whose last entry is zero. *)
Theorem align_your_steps_resampled_last_sigma (choice : scheduler_choice)
  (sigma_min sigma_max : R) (w : world) :
  (context_size <= length (frames pose_images))%nat ->
  (steps + 1 <> 11)%nat ->
  let run :=
    process mimic_pipeline ref_image pose_images cfg_min cfg_max steps seed
      noise_aug_strength fps keep_model_loaded context_size context_overlap
      (Some (loadmodel choice sigma_min sigma_max true)) w in
  exists p s,
    pipeline_calls (trace (snd run)) =
    pipeline_calls (trace w) ++
    [(p, call_args (bundle_dtype mimic_pipeline) ref_image pose_images
           cfg_min cfg_max steps seed noise_aug_strength fps context_size
           context_overlap (Some s))] /\
    length s = (steps + 1)%nat /\
    last s 1 = 0.
Proof.
  intros Hctx Hneq. cbv zeta.
  assert (Hne : align_your_steps_sigmas <> []) by discriminate.
  destruct (@resolve_sigmas_interp align_your_steps_sigmas steps Hne Hneq)
    as (s & Hres & Hlen & Hlast).
  destruct (@process_call_logged _ mimic_pipeline ref_image pose_images
              cfg_min cfg_max steps seed noise_aug_strength fps
              keep_model_loaded context_size context_overlap
              (Some (loadmodel choice sigma_min sigma_max true)) w (Some s)
              Hres Hctx) as (p & _ & Hcall).
  exists p, s.
  split; [exact Hcall|]. split; [exact Hlen|exact Hlast].
Qed.

End Process.

Lemma failed_sampling_skips_offload_witness :
  let run :=
    process (B := DemoFailing.backend) Demo.bundle0
      (DemoFailing.images [1%nat]) (DemoFailing.images [1%nat; 1%nat])
      2 2 25 0 0 15 false 2 1 None DemoFailing.world0 in
  fst run = Raise (ExternalError 7) /\
  forall r',
    unet_device (pipes (snd run) r') = unet_device (pipes DemoFailing.world0 r')
    /\
    vae_device (pipes (snd run) r') = vae_device (pipes DemoFailing.world0 r').
Proof.
  apply (@failed_sampling_skips_offload DemoFailing.backend Demo.bundle0
           (DemoFailing.images [1%nat]) (DemoFailing.images [1%nat; 1%nat])
           2 2 25 0 0 15 false 2 1 None DemoFailing.world0 None 7%nat).
  - reflexivity.
  - simpl. lia.
  - reflexivity.
Defined.

Lemma successful_sampling_offloads_on_request_witness :
  let run :=
    process (B := Demo.backend) Demo.bundle0 (Demo.images [1%nat])
      (Demo.images [1%nat; 1%nat]) 2 2 25 0 0 15 false 2 1 None
      Demo.world0 in
  fst run = Ok (@Build_latent Demo.backend 2%nat) /\
  unet_device (pipes (snd run) 0) = offload_device /\
  vae_device (pipes (snd run) 0) = offload_device /\
  forall r', r' <> 0%nat -> pipes (snd run) r' = pipes Demo.world0 r'.
Proof.
  apply (@successful_sampling_offloads_on_request Demo.backend Demo.bundle0
           (Demo.images [1%nat]) (Demo.images [1%nat; 1%nat])
           2 2 25 0 0 15 false 2 1 None Demo.world0 None 2%nat).
  - reflexivity.
  - simpl. lia.
  - reflexivity.
Defined.

Lemma plain_sampling_keeps_the_store_witness :
  let run :=
    process (B := Demo.backend) Demo.bundle0 (Demo.images [1%nat])
      (Demo.images [1%nat; 1%nat]) 2 2 25 0 0 15 true 2 1 None
      Demo.world0 in
  (forall r', pipes (snd run) r' = pipes Demo.world0 r') /\
  (forall f, files (snd run) f = files Demo.world0 f).
Proof.
  apply (@plain_sampling_keeps_the_store Demo.backend Demo.bundle0
           (Demo.images [1%nat]) (Demo.images [1%nat; 1%nat])
           2 2 25 0 0 15 true 2 1 Demo.world0).
  reflexivity.
Defined.

Lemma no_table_without_align_your_steps_witness :
  let run :=
    process (B := Demo.backend) Demo.bundle0 (Demo.images [1%nat])
      (Demo.images [1%nat; 1%nat]) 2 2 25 0 0 15 true 2 1
      (Some (loadmodel AnimateLCM_SVD 0.002 700 false)) Demo.world0 in
  exists p a,
    pipeline_calls (trace (snd run)) = [(p, a)] /\
    arg_sigmas a = None /\
    scheduler p = 2%nat.
Proof.
  apply (@no_table_without_align_your_steps Demo.backend Demo.bundle0
           (Demo.images [1%nat]) (Demo.images [1%nat; 1%nat])
           2 2 25 0 0 15 true 2 1 AnimateLCM_SVD 0.002 700 Demo.world0).
  simpl. lia.
Defined.

Lemma align_your_steps_resampled_last_sigma_witness :
  let run :=
    process (B := Demo.backend) Demo.bundle0 (Demo.images [1%nat])
      (Demo.images [1%nat; 1%nat]) 2 2 25 0 0 15 true 2 1
      (Some (loadmodel EulerDiscreteScheduler 0.002 700 true))
      Demo.world0 in
  exists p s,
    pipeline_calls (trace (snd run)) =
    [(p, call_args (B := Demo.backend) fp16 (Demo.images [1%nat]) (Demo.images [1%nat; 1%nat])
           2 2 25 0 0 15 2 1 (Some s))] /\
    length s = 26%nat /\
    last s 1 = 0.
Proof.
  apply (@align_your_steps_resampled_last_sigma Demo.backend Demo.bundle0
           (Demo.images [1%nat]) (Demo.images [1%nat; 1%nat])
           2 2 25 0 0 15 true 2 1 EulerDiscreteScheduler 0.002 700
           Demo.world0).
  - simpl. lia.
  - simpl. lia.
Defined.

End SamplerExtra.

(** ** More on [MimicMotionDecode] *)

Module DecodeExtra.

Import MimicMotionDecode DecodeFacts.

Local Open Scope nat_scope.

Section Process.

Context {B : Backend}.

(** X11: decoding leaves every pipeline object and every file as it was,
    and neither calls the pipeline nor runs the detector. *)
Theorem decoding_keeps_the_store (mimic_pipeline : mimic_bundle)
  (samples : MimicMotionSampler.latent) (decode_chunk_size : nat)
  (w : world) :
  let run := process mimic_pipeline samples decode_chunk_size w in
  (forall r, pipes (snd run) r = pipes w r) /\
  (forall f, files (snd run) f = files w f) /\
  pipeline_calls (trace (snd run)) = pipeline_calls (trace w) /\
  detector_runs (trace (snd run)) = detector_runs (trace w).
Proof.
  cbv zeta. rewrite decode_run. cbv zeta.
  destruct (decode_latents _ _ _ decode_chunk_size) as [v|tag];
    [|destruct (decode_latents _ _ _ 1) as [v|tag']];
    cbn [snd pipes files trace log];
    (split; [reflexivity|]); (split; [reflexivity|]);
    unfold pipeline_calls, detector_runs; rewrite !flat_map_app; cbn;
    rewrite !app_nil_r; split; reflexivity.
Qed.

End Process.

End DecodeExtra.

(** ** More on [MimicMotionGetPoses] *)

Module GetPosesExtra.

Import MimicMotionGetPoses GetPosesFacts.

Local Open Scope nat_scope.

Section World.

Context {B : Backend}.

Lemma bind_lift {A C : Type} (r : result A) (k : A -> M C) (w : world) :
  bind (lift r) k w =
  match r with
  | Ok a => k a w
  | Raise e => (Raise e, w)
  end.
Proof. destruct r; reflexivity. Qed.

Lemma bind_detect {C : Type} (img : Tensor) (k : pose_t -> M C) (w : world) :
  bind (detect img) k w =
  match dwprocessor img with
  | Done p => k p (log (EvDetect img) w)
  | Failed tag => (Raise (ExternalError tag), log (EvDetect img) w)
  end.
Proof.
  unfold bind, detect, emit, lift. cbn [fst snd].
  destruct (dwprocessor img); reflexivity.
Qed.

(** The detection loop when every frame is detected. *)
Lemma for_each_detect_done (imgs : list Tensor) :
  forall (w : world) (ds : list pose_t) (w' : world),
    for_each detect imgs w = (Ok ds, w') ->
    pipes w' = pipes w /\ files w' = files w /\
    trace w' = trace w ++ map EvDetect imgs.
Proof.
  induction imgs as [|img imgs IH]; intros w ds w' Hrun.
  - cbn in Hrun. injection Hrun as <- <-.
    rewrite app_nil_r. repeat split.
  - cbn [for_each] in Hrun. rewrite bind_detect in Hrun.
    destruct (dwprocessor img) as [p|tag]; [|discriminate].
    unfold bind at 1 in Hrun.
    destruct (for_each detect imgs (log (EvDetect img) w)) as [[ps|e] w1]
      eqn:Hrest; [|discriminate].
    cbn in Hrun. injection Hrun as <- <-.
    destruct (IH _ _ _ Hrest) as (Hp & Hf & Ht).
    rewrite Hp, Hf, Ht. cbn [pipes files trace log].
    rewrite <- app_assoc. repeat split.
Qed.

(** The detection loop when the detector fails on a frame: the loop stops
    there. *)
Lemma for_each_detect_failed (good : list Tensor) :
  forall (bad : Tensor) (rest : list Tensor) (tag : nat) (w : world),
    Forall (fun img => exists p, dwprocessor img = Done p) good ->
    dwprocessor bad = Failed tag ->
    fst (for_each detect (good ++ bad :: rest) w) = Raise (ExternalError tag)
    /\
    trace (snd (for_each detect (good ++ bad :: rest) w)) =
    trace w ++ map EvDetect (good ++ [bad]).
Proof.
  induction good as [|img good IH]; intros bad rest tag w Hgood Hbad.
  - cbn [app for_each]. rewrite bind_detect, Hbad. split; reflexivity.
  - inversion Hgood as [|x l [p Hp] Hgood']; subst.
    cbn [app for_each]. rewrite bind_detect, Hp. unfold bind.
    destruct (IH bad rest tag (log (EvDetect img) w) Hgood' Hbad)
      as [Hfst Hsnd].
    destruct (for_each detect (good ++ bad :: rest) (log (EvDetect img) w))
      as [[ps|e] w1]; cbn [fst snd] in *; [discriminate|].
    split; [exact Hfst|]. rewrite Hsnd. cbn [trace log map].
    rewrite <- app_assoc. reflexivity.
Qed.

(** The detection loop never touches the store or the files, and logs
    detector runs only. *)
Lemma for_each_detect_frame (imgs : list Tensor) :
  forall w : world,
    pipes (snd (for_each detect imgs w)) = pipes w /\
    files (snd (for_each detect imgs w)) = files w /\
    exists seen, trace (snd (for_each detect imgs w)) =
                 trace w ++ map EvDetect seen.
Proof.
  induction imgs as [|img imgs IH]; intros w.
  - cbn. repeat split. exists []. rewrite app_nil_r. reflexivity.
  - cbn [for_each]. rewrite bind_detect.
    destruct (dwprocessor img) as [p|tag].
    + unfold bind.
      destruct (IH (log (EvDetect img) w)) as (Hp & Hf & seen & Ht).
      destruct (for_each detect imgs (log (EvDetect img) w)) as [[ps|e] w1];
        cbn [fst snd ret] in *; rewrite Hp, Hf, Ht;
        (split; [reflexivity|]); (split; [reflexivity|]);
        exists (img :: seen); cbn [trace log map];
        rewrite <- app_assoc; reflexivity.
    + cbn [snd pipes files trace log]. repeat split.
      exists [img]. reflexivity.
Qed.

End World.

Section Process.

Context {B : Backend}.

Variables (ref_image pose_images : batch Tensor).
Variables (include_body include_hand include_face : bool).

(** The body of [process] never touches the store or the files, and logs
    detector runs only. *)
Lemma process_body_frame (w : world) :
  let w' :=
    snd (process_body ref_image pose_images include_body include_hand
           include_face w) in
  pipes w' = pipes w /\ files w' = files w /\
  exists seen, trace w' = trace w ++ map EvDetect seen.
Proof.
  cbv zeta.
  remember (process_body ref_image pose_images include_body include_hand
              include_face w) as run eqn:Hrun.
  unfold process_body in Hrun. cbv zeta in Hrun.
  rewrite bind_detect in Hrun.
  remember (times255 (squeeze0 ref_image)) as img eqn:Himg. clear Himg.
  assert (Hw1 : pipes (log (EvDetect img) w) = pipes w /\
                files (log (EvDetect img) w) = files w /\
                exists seen,
                  trace (log (EvDetect img) w) =
                  trace w ++ map EvDetect seen).
  { cbn. repeat split. exists [img]. reflexivity. }
  destruct (dwprocessor img) as [ref_pose|tag];
    [|subst run; exact Hw1].
  rewrite bind_lift in Hrun.
  destruct (select_ref_keypoints _ _) as [ids|e]; [|subst run; exact Hw1].
  rewrite bind_lift in Hrun.
  destruct (take_rows ids _) as [ref_body|e]; [|subst run; exact Hw1].
  rewrite bind_lift in Hrun.
  destruct (unpack_shape ref_image) as [hw|e]; [|subst run; exact Hw1].
  unfold bind at 1 in Hrun.
  destruct (for_each_detect_frame (map times255 (frames pose_images))
              (log (EvDetect img) w)) as (Hp & Hf & seen & Ht).
  destruct (for_each detect (map times255 (frames pose_images))
              (log (EvDetect img) w)) as [r w2].
  cbn [snd] in Hp, Hf, Ht.
  assert (Hw2 : pipes w2 = pipes w /\ files w2 = files w /\
                exists seen', trace w2 = trace w ++ map EvDetect seen').
  { split; [exact Hp|]. split; [exact Hf|].
    exists (img :: seen). rewrite Ht. cbn [trace log map].
    rewrite <- app_assoc. reflexivity. }
  destruct r as [detected|e]; [|subst run; exact Hw2].
  rewrite bind_lift in Hrun.
  destruct (detected_bodies ids detected) as [db|e]; [|subst run; exact Hw2].
  rewrite bind_lift in Hrun.
  destruct (first_frame_shape pose_images) as [shape|e];
    [|subst run; exact Hw2].
  rewrite bind_lift in Hrun.
  destruct (rescale_params _ _ _ _ _ _) as [ab|e]; [|subst run; exact Hw2].
  rewrite bind_lift in Hrun.
  destruct (torch_stack _) as [out|e]; subst run; exact Hw2.
Qed.

(** The detector runs of a call of the body that returns: the reference
    image first, then every pose image in order. *)
Lemma process_body_trace (w : world) (out : list Tensor * list Tensor) :
  fst (process_body ref_image pose_images include_body include_hand
         include_face w) = Ok out ->
  exists img,
    frames ref_image = [img] /\
    trace (snd (process_body ref_image pose_images include_body include_hand
                  include_face w)) =
    trace w ++
    EvDetect (times255 img) :: map EvDetect (map times255 (frames pose_images)).
Proof.
  remember (process_body ref_image pose_images include_body include_hand
              include_face w) as run eqn:Hrun.
  unfold process_body in Hrun. cbv zeta in Hrun.
  rewrite bind_detect in Hrun.
  unfold squeeze0, unpack_shape in Hrun.
  destruct (frames ref_image) as [|img [|img' l]].
  1, 3: destruct (dwprocessor _) as [ref_pose|tag];
    [|subst run; discriminate];
    rewrite bind_lift in Hrun;
    (destruct (select_ref_keypoints _ _) as [ids|e];
     [|subst run; discriminate]);
    rewrite bind_lift in Hrun;
    (destruct (take_rows ids _) as [ref_body|e];
     [|subst run; discriminate]);
    subst run; discriminate.
  destruct (dwprocessor (times255 img)) as [ref_pose|tag];
    [|subst run; discriminate].
  rewrite bind_lift in Hrun.
  destruct (select_ref_keypoints _ _) as [ids|e]; [|subst run; discriminate].
  rewrite bind_lift in Hrun.
  destruct (take_rows ids _) as [ref_body|e]; [|subst run; discriminate].
  rewrite bind_lift in Hrun. cbn [fst snd] in Hrun.
  unfold bind at 1 in Hrun.
  destruct (for_each detect (map times255 (frames pose_images))
              (log (EvDetect (times255 img)) w)) as [[detected|e] w2]
    eqn:Hloop; [|subst run; discriminate].
  apply for_each_detect_done in Hloop. destruct Hloop as (_ & _ & Ht).
  rewrite bind_lift in Hrun.
  destruct (detected_bodies ids detected) as [db|e];
    [|subst run; discriminate].
  rewrite bind_lift in Hrun.
  destruct (first_frame_shape pose_images) as [shape|e];
    [|subst run; discriminate].
  rewrite bind_lift in Hrun.
  destruct (rescale_params _ _ _ _ _ _) as [ab|e];
    [|subst run; discriminate].
  rewrite bind_lift in Hrun.
  destruct (torch_stack _) as [st|e]; [|subst run; discriminate].
  subst run. intros _. exists img. split; [reflexivity|].
  cbn [snd ret]. rewrite Ht. cbn [trace log].
  rewrite <- app_assoc. reflexivity.
Qed.

Lemma detector_runs_app (l l' : list event) :
  detector_runs (l ++ l') = detector_runs l ++ detector_runs l'.
Proof. apply flat_map_app. Qed.

Lemma detector_runs_detects (imgs : list Tensor) :
  detector_runs (map EvDetect imgs) = imgs.
Proof.
  induction imgs as [|img imgs IH]; [reflexivity|].
  cbn. f_equal. exact IH.
Qed.

(** The world in which the body of [process] starts. *)
Lemma setup_world (w : world) :
  let det := path_join model_base_path yolo_model in
  let pose := path_join model_base_path dw_pose_model in
  let ws :=
    log EvLoadDetector (snd (ensure_model pose (snd (ensure_model det w)))) in
  pipes ws = pipes w /\
  files ws det = true /\
  files ws pose = true /\
  (forall f, f <> det -> f <> pose -> files ws f = files w f) /\
  trace ws =
  trace w ++
  (if files w det then [] else [EvDownload det]) ++
  (if files w pose then [] else [EvDownload pose]) ++ [EvLoadDetector].
Proof.
  cbv zeta.
  assert (Hne : String.eqb (path_join model_base_path dw_pose_model)
                  (path_join model_base_path yolo_model) = false)
    by reflexivity.
  remember (path_join model_base_path yolo_model) as det eqn:Edet.
  remember (path_join model_base_path dw_pose_model) as pose eqn:Epose.
  clear Edet Epose.
  rewrite (ensure_model_run det w). cbn [snd].
  destruct (files w det) eqn:Hdet.
  - rewrite (ensure_model_run pose w). cbn [snd].
    destruct (files w pose) eqn:Hpose;
      cbn [pipes files trace log with_file].
    + repeat split; assumption.
    + rewrite String.eqb_refl. repeat split.
      * destruct (String.eqb det pose); [reflexivity|exact Hdet].
      * intros f _ Hf. apply String.eqb_neq in Hf. rewrite Hf. reflexivity.
      * rewrite <- app_assoc. reflexivity.
  - rewrite ensure_model_run. cbn [snd].
    cbn [pipes files trace log with_file]. rewrite Hne.
    destruct (files w pose) eqn:Hpose;
      cbn [pipes files trace log with_file]; rewrite ?String.eqb_refl.
    + rewrite Hne, Hpose. repeat split.
      * intros f Hf _. apply String.eqb_neq in Hf. rewrite Hf. reflexivity.
      * rewrite <- app_assoc. reflexivity.
    + repeat split.
      * destruct (String.eqb det pose); reflexivity.
      * intros f Hf Hf'. apply String.eqb_neq in Hf, Hf'.
        rewrite Hf, Hf'. reflexivity.
      * rewrite <- !app_assoc. reflexivity.
Qed.

(** X12: when the two resolutions agree, a call ends with both detector
    models present; it fetches the missing ones only, the detection model
    first, changes no other file and no pipeline object, and after loading
    the detector it logs detector runs only. *)
Theorem models_fetched_when_missing (w : world) :
  same_resolution ref_image pose_images = true ->
  let det := path_join model_base_path yolo_model in
  let pose := path_join model_base_path dw_pose_model in
  let after :=
    snd (process ref_image pose_images include_body include_hand
           include_face w) in
  files after det = true /\
  files after pose = true /\
  (forall f, f <> det -> f <> pose -> files after f = files w f) /\
  (forall r, pipes after r = pipes w r) /\
  exists seen,
    trace after =
    trace w ++
    (if files w det then [] else [EvDownload det]) ++
    (if files w pose then [] else [EvDownload pose]) ++
    EvLoadDetector :: map EvDetect seen.
Proof.
  intros Hres. cbv zeta. rewrite get_poses_run, Hres.
  destruct (setup_world w) as (Hp & Hdet & Hpose & Hother & Ht).
  destruct (process_body_frame
              (log EvLoadDetector
                 (snd (ensure_model (path_join model_base_path dw_pose_model)
                         (snd (ensure_model
                                 (path_join model_base_path yolo_model) w))))))
    as (Hp' & Hf' & seen & Ht').
  cbv zeta in *. rewrite Hp', Hf', Ht'.
  split; [exact Hdet|]. split; [exact Hpose|]. split; [exact Hother|].
  split; [intros r; rewrite Hp; reflexivity|].
  exists seen. rewrite Ht, <- !app_assoc. reflexivity.
Qed.

(** X13: a call that returns has run the detector once on the reference
    image and then once on each pose image, in order. *)
Theorem detector_runs_of_a_call (w : world) (out : list Tensor * list Tensor) :
  fst (process ref_image pose_images include_body include_hand include_face
         w) = Ok out ->
  exists img,
    frames ref_image = [img] /\
    detector_runs
      (trace (snd (process ref_image pose_images include_body include_hand
                     include_face w))) =
    detector_runs (trace w) ++
    times255 img :: map times255 (frames pose_images).
Proof.
  rewrite get_poses_run.
  destruct (same_resolution ref_image pose_images); [|discriminate].
  intros Hok. destruct (process_body_trace _ Hok) as (img & Href & Ht).
  exists img. split; [exact Href|]. rewrite Ht.
  destruct (setup_world w) as (_ & _ & _ & _ & Hts).
  cbv zeta in Hts. rewrite Hts.
  rewrite !detector_runs_app.
  change (EvDetect (times255 img)
          :: map EvDetect (map times255 (frames pose_images)))
    with (map EvDetect (times255 img :: map times255 (frames pose_images))).
  rewrite detector_runs_detects.
  destruct (files w (path_join model_base_path yolo_model));
    destruct (files w (path_join model_base_path dw_pose_model));
    cbn; rewrite ?app_nil_r; reflexivity.
Qed.

(** X14: when the detector finds exactly 18 body keypoints in no pose
    frame, and in particular when there is no pose frame, the call fails
    with the [ValueError] of [np.stack], after all the detection. *)
Theorem no_frame_with_18_keypoints (w : world) (img : Tensor)
  (ref_pose : pose_t) (ids : list nat) (ref_body : list point)
  (detected : list pose_t) :
  same_resolution ref_image pose_images = true ->
  frames ref_image = [img] ->
  dwprocessor (times255 img) = Done ref_pose ->
  select_ref_keypoints (score (bodies ref_pose)) ref_keypoint_candidates
  = Ok ids ->
  take_rows ids (candidate (bodies ref_pose)) = Ok ref_body ->
  Forall2 (fun i p => dwprocessor (times255 i) = Done p)
    (frames pose_images) detected ->
  filter has_18_keypoints detected = [] ->
  fst (process ref_image pose_images include_body include_hand include_face
         w) = Raise (ValueError "need at least one array to stack").
Proof.
  intros Hres Href Hrp Hids Hbody Hdet Hnone.
  rewrite get_poses_run, Hres, process_body_result.
  unfold squeeze0, unpack_shape.
  rewrite Href, Hrp. cbn [lift_ext rbind].
  rewrite Hids. cbn [rbind]. rewrite Hbody. cbn [rbind].
  rewrite (proj2 (detection_Forall2 _ _) Hdet). cbn [rbind].
  unfold detected_bodies. rewrite Hnone. reflexivity.
Qed.

(** X15: when the detector fails on a pose frame, the call fails with that
    error and the detector is not run on the frames after it. *)
Theorem detection_stops_at_first_failure (w : world) (img : Tensor)
  (ref_pose : pose_t) (ids : list nat) (ref_body : list point)
  (good : list Tensor) (bad : Tensor) (rest : list Tensor) (tag : nat) :
  same_resolution ref_image pose_images = true ->
  frames ref_image = [img] ->
  dwprocessor (times255 img) = Done ref_pose ->
  select_ref_keypoints (score (bodies ref_pose)) ref_keypoint_candidates
  = Ok ids ->
  take_rows ids (candidate (bodies ref_pose)) = Ok ref_body ->
  frames pose_images = good ++ bad :: rest ->
  Forall (fun i => exists p, dwprocessor (times255 i) = Done p) good ->
  dwprocessor (times255 bad) = Failed tag ->
  let run :=
    process ref_image pose_images include_body include_hand include_face w in
  fst run = Raise (ExternalError tag) /\
  detector_runs (trace (snd run)) =
  detector_runs (trace w) ++ times255 img :: map times255 (good ++ [bad]).
Proof.
  intros Hres Href Hrp Hids Hbody Hframes Hgood Hbad. cbv zeta.
  rewrite get_poses_run, Hres.
  destruct (setup_world w) as (_ & _ & _ & _ & Hts). cbv zeta in Hts.
  set (ws := log EvLoadDetector _) in *.
  unfold process_body. cbv zeta. unfold squeeze0, unpack_shape. rewrite Href.
  rewrite bind_detect, Hrp, bind_lift, Hids, bind_lift, Hbody, bind_lift.
  unfold bind. rewrite Hframes, map_app. cbn [map].
  destruct (@for_each_detect_failed _ (map times255 good) (times255 bad)
              (map times255 rest) tag (log (EvDetect (times255 img)) ws))
    as [Hfst Hsnd].
  { apply Forall_map. exact Hgood. }
  { exact Hbad. }
  destruct (for_each detect _ _) as [[ps|e] w2]; cbn [fst snd] in *;
    [discriminate|].
  injection Hfst as ->.
  split; [reflexivity|]. rewrite Hsnd. cbn [trace log]. rewrite Hts.
  rewrite !detector_runs_app, detector_runs_detects.
  rewrite map_app. cbn [map].
  destruct (files w (path_join model_base_path yolo_model));
    destruct (files w (path_join model_base_path dw_pose_model));
    cbn; rewrite ?app_nil_r, <- ?app_assoc; reflexivity.
Qed.

(** X22: a reference batch that does not hold exactly one frame is not
    squeezed: the detector is run on the whole batch, and when that
    detection and the selection of the reference keypoints succeed, the
    call fails at line 412 with the [ValueError] of unpacking four
    dimensions into three names, before the detector is run on any pose
    frame. *)
Theorem reference_batch_not_squeezed (w : world) (ref_pose : pose_t)
  (ids : list nat) (ref_body : list point) :
  same_resolution ref_image pose_images = true ->
  length (frames ref_image) <> 1 ->
  dwprocessor (times255 (batch_array (frames ref_image))) = Done ref_pose ->
  select_ref_keypoints (score (bodies ref_pose)) ref_keypoint_candidates
  = Ok ids ->
  take_rows ids (candidate (bodies ref_pose)) = Ok ref_body ->
  let run :=
    process ref_image pose_images include_body include_hand include_face w in
  fst run = Raise (ValueError "too many values to unpack (expected 3)") /\
  detector_runs (trace (snd run)) =
  detector_runs (trace w) ++ [times255 (batch_array (frames ref_image))].
Proof.
  intros Hres Hlen Hrp Hids Hbody. cbv zeta.
  rewrite get_poses_run, Hres.
  destruct (setup_world w) as (_ & _ & _ & _ & Hts). cbv zeta in Hts.
  set (ws := log EvLoadDetector _) in *.
  assert (Hsq : squeeze0 ref_image = batch_array (frames ref_image)).
  { unfold squeeze0.
    destruct (frames ref_image) as [|img [|img' l]];
      [reflexivity|contradiction|reflexivity]. }
  assert (Hun : unpack_shape ref_image
                = Raise (ValueError "too many values to unpack (expected 3)")).
  { unfold unpack_shape.
    destruct (frames ref_image) as [|img [|img' l]];
      [reflexivity|contradiction|reflexivity]. }
  unfold process_body. cbv zeta. rewrite Hsq.
  rewrite bind_detect, Hrp, bind_lift, Hids, bind_lift, Hbody, bind_lift, Hun.
  split; [reflexivity|]. cbn [snd trace log]. rewrite Hts.
  rewrite !detector_runs_app.
  destruct (files w (path_join model_base_path yolo_model));
    destruct (files w (path_join model_base_path dw_pose_model));
    cbn; rewrite ?app_nil_r; reflexivity.
Qed.

End Process.

Lemma models_fetched_when_missing_witness :
  let det := path_join model_base_path yolo_model in
  let pose := path_join model_base_path dw_pose_model in
  let after :=
    snd (process (B := Demo.backend) (Demo.images [1]) (Demo.images [1; 0])
           true true true Demo.world0) in
  files after det = true /\
  files after pose = true /\
  (forall f, f <> det -> f <> pose -> files after f = false) /\
  (forall r, pipes after r = Demo.pipe0) /\
  exists seen,
    trace after =
    [EvDownload det; EvDownload pose; EvLoadDetector] ++ map EvDetect seen.
Proof.
  apply (@models_fetched_when_missing Demo.backend (Demo.images [1])
           (Demo.images [1; 0]) true true true Demo.world0).
  reflexivity.
Defined.

Lemma detector_runs_of_a_call_witness :
  exists img : nat,
    [1] = [img] /\
    detector_runs
      (trace (snd (process (B := Demo.backend) (Demo.images [1])
                     (Demo.images [1; 0; 2; 1]) true true true Demo.world0)))
    = img :: [1; 0; 2; 1].
Proof.
  exact (@detector_runs_of_a_call Demo.backend (Demo.images [1])
           (Demo.images [1; 0; 2; 1]) true true true Demo.world0 _ demo_run).
Defined.

Lemma no_frame_with_18_keypoints_witness :
  fst (process (B := Demo.backend) (Demo.images [1]) (Demo.images [0; 2])
         true true true Demo.world0)
  = Raise (ValueError "need at least one array to stack").
Proof.
  apply (@no_frame_with_18_keypoints Demo.backend (Demo.images [1])
           (Demo.images [0; 2]) true true true Demo.world0 1 Demo.person
           ref_keypoint_candidates (repeat (1%R, 2%R) 10)
           [Demo.nobody; Demo.two_people]).
  - reflexivity.
  - reflexivity.
  - reflexivity.
  - exact demo_select.
  - reflexivity.
  - repeat constructor.
  - reflexivity.
Defined.

Lemma detection_stops_at_first_failure_witness :
  let run :=
    process (B := DemoFailing.backend) (DemoFailing.images [1])
      (DemoFailing.images [1; 9; 1]) true true true DemoFailing.world0 in
  fst run = Raise (ExternalError 3) /\
  detector_runs (trace (snd run)) = [1; 1; 9].
Proof.
  apply (@detection_stops_at_first_failure DemoFailing.backend
           (DemoFailing.images [1]) (DemoFailing.images [1; 9; 1])
           true true true DemoFailing.world0 1 Demo.person
           ref_keypoint_candidates (repeat (1%R, 2%R) 10) [1] 9 [1] 3).
  - reflexivity.
  - reflexivity.
  - reflexivity.
  - exact demo_select.
  - reflexivity.
  - reflexivity.
  - repeat constructor. exists Demo.person. reflexivity.
  - reflexivity.
Defined.

Lemma reference_batch_not_squeezed_witness :
  let run :=
    process (B := Demo.backend) (Demo.images [1; 1]) (Demo.images [1; 0])
      true true true Demo.world0 in
  fst run = Raise (ValueError "too many values to unpack (expected 3)") /\
  detector_runs (trace (snd run)) = [2].
Proof.
  apply (@reference_batch_not_squeezed Demo.backend (Demo.images [1; 1])
           (Demo.images [1; 0]) true true true Demo.world0 Demo.two_people
           ref_keypoint_candidates (repeat (1%R, 2%R) 10)).
  - reflexivity.
  - discriminate.
  - reflexivity.
  - exact demo_select.
  - reflexivity.
Defined.

(** *** The fit and the rescale *)

Lemma take_rows_in_range {A : Type} (ids : list nat) (a : list A) :
  Forall (fun i => i < length a) ids ->
  exists rows, take_rows ids a = Ok rows.
Proof.
  induction ids as [|i ids IH]; intros Hall; [eexists; reflexivity|].
  inversion Hall as [|x l Hi Hrest]; subst.
  destruct (IH Hrest) as (rows & Hrows).
  destruct (nth_error a i) as [row|] eqn:Hrow.
  - exists (row :: rows). simpl. rewrite Hrow, Hrows. reflexivity.
  - apply nth_error_None in Hrow. lia.
Qed.

Lemma map_result_all_ok {A C : Type} (f : A -> result C) (l : list A) :
  Forall (fun a => exists c, f a = Ok c) l ->
  exists l', map_result f l = Ok l' /\ length l' = length l.
Proof.
  induction l as [|a l IH]; intros Hall; [exists []; split; reflexivity|].
  inversion Hall as [|x l0 [c Hc] Hrest]; subst.
  destruct (IH Hrest) as (cs & Hcs & Hlen).
  exists (c :: cs). simpl. rewrite Hc, Hcs. simpl.
  split; [reflexivity|]. f_equal. exact Hlen.
Qed.

Lemma select_ref_keypoints_incl (sc : list (list R)) (ids kept : list nat) :
  select_ref_keypoints sc ids = Ok kept -> incl kept ids.
Proof.
  revert kept. induction ids as [|i ids IH]; intros kept; simpl.
  - intros Heq. injection Heq as <-. apply incl_refl.
  - destruct (keep_ref_keypoint sc i) as [keep|e]; [|discriminate].
    destruct (select_ref_keypoints sc ids) as [rest|e]; [|discriminate].
    simpl. intros Heq. injection Heq as <-.
    specialize (IH rest eq_refl).
    destruct keep.
    + intros x [->|Hx]; [left; reflexivity|right; apply IH; exact Hx].
    + intros x Hx. right. apply IH. exact Hx.
Qed.

Lemma length_flat_rows {A C : Type} (f : A -> C) (m : nat)
  (db : list (list A)) :
  Forall (fun rows => length rows = m) db ->
  length (flat_map (map f) db) = length db * m.
Proof.
  induction db as [|rows db IH]; intros Hall; [reflexivity|].
  inversion Hall; subst. simpl.
  rewrite length_app, length_map, IH by assumption. reflexivity.
Qed.

Lemma length_tile {A : Type} (v : list A) (k : nat) :
  length (tile v k) = k * length v.
Proof.
  induction k as [|k IH]; [reflexivity|].
  simpl. rewrite length_app, IH. reflexivity.
Qed.

Lemma detected_rows_length (ids : list nat) (poses : list pose_t)
  (db : list (list point)) :
  detected_bodies ids poses = Ok db ->
  Forall (fun rows => length rows = length ids) db.
Proof.
  intros Hdb. apply detected_bodies_rows in Hdb. destruct Hdb as [_ Hrows].
  induction Hrows as [|p rows ps db' Hp _ IH]; constructor.
  - apply (take_rows_length _ _ Hp).
  - exact IH.
Qed.

(** X16: the two vectors handed to [np.polyfit] always have one length:
    the number of frames with 18 keypoints times the number of selected
    reference indices. *)
Theorem fit_vectors_have_one_length (ids : list nat) (c : list point)
  (ref_body : list point) (poses : list pose_t) (db : list (list point)) :
  take_rows ids c = Ok ref_body ->
  detected_bodies ids poses = Ok db ->
  length (fit_x db) =
  length (filter has_18_keypoints poses) * length ids /\
  length (fit_y ref_body db) =
  length (filter has_18_keypoints poses) * length ids.
Proof.
  intros Href Hdb.
  assert (Hcount : length db = length (filter has_18_keypoints poses)).
  { apply detected_bodies_rows in Hdb. destruct Hdb as [_ Hrows].
    symmetry. apply (Forall2_length Hrows). }
  unfold fit_x, fit_y. split.
  - rewrite (length_flat_rows snd (detected_rows_length _ _ Hdb)).
    f_equal. exact Hcount.
  - rewrite length_tile, length_map.
    f_equal; [exact Hcount|exact (take_rows_length _ _ Href)].
Qed.

Lemma fit_vectors_have_one_length_witness :
  exists db,
    detected_bodies ref_keypoint_candidates
      [Demo.person; Demo.nobody; Demo.person] = Ok db /\
    length (fit_x db) = 2 * 10 /\
    length (fit_y (repeat (1%R, 2%R) 10) db) = 2 * 10.
Proof.
  eexists. split; [reflexivity|].
  apply (@fit_vectors_have_one_length ref_keypoint_candidates
           (candidate (bodies Demo.person)) (repeat (1%R, 2%R) 10)
           [Demo.person; Demo.nobody; Demo.person]);
    reflexivity.
Defined.

(** X17: with reference indices selected from the fixed candidates, the
    stacking and column indexing of lines 422-424 succeeds as soon as one
    frame has 18 keypoints, with one entry for each such frame; the
    indexing itself never fails. *)
Theorem selected_columns_exist (sc : list (list R)) (ids : list nat)
  (poses : list pose_t) :
  select_ref_keypoints sc ref_keypoint_candidates = Ok ids ->
  filter has_18_keypoints poses <> [] ->
  exists db,
    detected_bodies ids poses = Ok db /\
    length db = length (filter has_18_keypoints poses).
Proof.
  intros Hids Hsome. apply select_ref_keypoints_incl in Hids.
  assert (Hsmall : Forall (fun i => i < 18) ids).
  { apply Forall_forall. intros i Hi. apply Hids in Hi.
    unfold ref_keypoint_candidates in Hi. simpl in Hi.
    repeat (destruct Hi as [<-|Hi]; [lia|]). contradiction. }
  unfold detected_bodies.
  destruct (filter has_18_keypoints poses) as [|p ps] eqn:Hfilter;
    [contradiction|].
  cbn [map stack rbind].
  destruct (@map_result_all_ok _ _ (take_rows ids)
              (map (fun q => candidate (bodies q)) (p :: ps)))
    as (db & Hdb & Hlen).
  - apply Forall_map, Forall_forall. intros q Hq.
    apply take_rows_in_range.
    assert (Hq18 : has_18_keypoints q = true).
    { rewrite <- Hfilter in Hq. apply filter_In in Hq. apply Hq. }
    unfold has_18_keypoints in Hq18. apply Nat.eqb_eq in Hq18.
    rewrite Hq18. exact Hsmall.
  - exists db. split; [exact Hdb|]. rewrite Hlen, length_map. reflexivity.
Qed.

Lemma selected_columns_exist_witness :
  exists db,
    detected_bodies ref_keypoint_candidates
      [Demo.nobody; Demo.person; Demo.two_people] = Ok db /\
    length db =
    length (filter has_18_keypoints
              [Demo.nobody; Demo.person; Demo.two_people]).
Proof.
  apply (@selected_columns_exist (score (bodies Demo.person))).
  - exact demo_select.
  - discriminate.
Defined.

Section Rescale.

Context {B : Backend}.

Local Open Scope R_scope.

(** X18: when the pose frames have the height and the width of the
    reference image, as the assertion of [process] demands, the aspect
    correction is one and the rescale has one scale for both axes. *)
Theorem one_scale_for_both_axes (ref_body : list point)
  (db : list (list point)) (fh fw height width : nat) (ab : point * point) :
  fh = height -> fw = width ->
  rescale_params ref_body db fh fw height width = Ok ab ->
  fst (fst ab) = snd (fst ab).
Proof.
  intros -> -> Hab. unfold rescale_params in Hab.
  destruct (polyfit1 _ _) as [fit|tag]; [|discriminate].
  cbn [lift_ext rbind] in Hab. unfold aspect_ratio in Hab.
  destruct (Nat.eqb_spec width 0) as [|Hw]; [discriminate|].
  destruct (Nat.eqb_spec height 0) as [|Hh]; [discriminate|].
  cbn [rbind] in Hab. injection Hab as <-. cbn [fst snd].
  assert (INR width <> 0) by (apply not_0_INR; exact Hw).
  assert (INR height <> 0) by (apply not_0_INR; exact Hh).
  field. split; assumption.
Qed.

End Rescale.

Lemma one_scale_for_both_axes_witness :
  exists ab,
    rescale_params (B := Demo.backend) [(1, 2)%R] [[(1, 2)%R]] 4 3 4 3
    = Ok ab /\
    fst (fst ab) = snd (fst ab).
Proof.
  eexists. split; [reflexivity|].
  apply (@one_scale_for_both_axes Demo.backend [(1, 2)%R] [[(1, 2)%R]]
           4 3 4 3 _ eq_refl eq_refl).
  reflexivity.
Defined.

Local Open Scope R_scope.

(** X20: the reference indices are those candidates whose confidence in
    the first detected body is above 0.3, in the order of the candidates;
    with nobody detected there is none; a first score row too short for a
    candidate is an [IndexError]. *)
Theorem reference_keypoints_selected (ids : list nat) :
  select_ref_keypoints [] ids = Ok [] /\
  (forall row0 rest,
     Forall (fun i => (i < length row0)%nat) ids ->
     select_ref_keypoints (row0 :: rest) ids =
     Ok (filter (fun i => if Rgt_dec (nth i row0 0) 0.3 then true else false)
           ids)) /\
  (forall row0 rest,
     Exists (fun i => (length row0 <= i)%nat) ids ->
     select_ref_keypoints (row0 :: rest) ids = Raise IndexError).
Proof.
  split; [|split].
  - induction ids as [|i ids IH]; [reflexivity|].
    simpl. rewrite IH. reflexivity.
  - intros row0 rest Hall.
    induction ids as [|i ids IH]; [reflexivity|].
    inversion Hall as [|x l Hi Hrest]; subst.
    cbn [select_ref_keypoints filter]. unfold keep_ref_keypoint.
    destruct (nth_error row0 i) as [s|] eqn:Hs;
      [|apply nth_error_None in Hs; lia].
    rewrite (nth_error_nth _ _ 0 Hs).
    cbn [rbind]. rewrite (IH Hrest). cbn [rbind].
    destruct (Rgt_dec s 0.3); reflexivity.
  - intros row0 rest Hbad.
    induction ids as [|i ids IH]; [inversion Hbad|].
    cbn [select_ref_keypoints]. unfold keep_ref_keypoint.
    destruct (nth_error row0 i) as [s|] eqn:Hs; [|reflexivity].
    cbn [rbind].
    inversion Hbad as [x l Hi|x l Hrest]; subst.
    + assert (nth_error row0 i = None) by (apply nth_error_None; exact Hi).
      congruence.
    + rewrite (IH Hrest). reflexivity.
Qed.

Lemma reference_keypoints_selected_witness :
  select_ref_keypoints [[1; 0.1; 1]; [0; 0; 0]] [0; 1; 2]%nat =
  Ok (filter (fun i => if Rgt_dec (nth i [1; 0.1; 1] 0) 0.3 then true
                       else false)
        [0; 1; 2]%nat) /\
  select_ref_keypoints [[1; 0.1; 1]] [0; 5]%nat = Raise IndexError.
Proof.
  destruct (reference_keypoints_selected [0; 1; 2]%nat) as (_ & Hsel & _).
  destruct (reference_keypoints_selected [0; 5]%nat) as (_ & _ & Hbad).
  split.
  - apply Hsel. repeat constructor; simpl; lia.
  - apply Hbad. right. left. simpl. lia.
Defined.

End GetPosesExtra.
